(** * FlashForge finder API: transaction client, snapshot assembler,
      request handlers and WebSocket subscription hub

    A shallow embedding of the server: the one-shot TCP exchange
    [sendAndReceive], the snapshot assembler [fetchSnapshot], the
    [progress] and [led] request handlers, and the polling registry
    ([ensurePolling], [cleanupSubscription] and the WebSocket handlers).

    JavaScript numbers are IEEE doubles wherever the code divides them
    (the progress percentage); polling intervals and LED channels, which
    the code only compares, are integers.  Strings are those whose code
    units are below 256. *)

From Stdlib Require Import ZArith String Ascii List Bool Lia.
From Stdlib Require Import Floats.PrimFloat Floats.SpecFloat Floats.FloatOps.
From stdpp Require Import gmap strings list fin_maps pretty.

Local Open Scope Z_scope.

(** ** Protocol constants *)

Definition CRLF : string := String "013"%char (String "010"%char EmptyString).

Definition PRINTER_PORT : Z := 8899.

Module PROTOCOL_MESSAGES.
Definition CONTROL : string := "~M601 S1" +:+ CRLF.
Definition INFO : string := "~M115" +:+ CRLF.
Definition HEAD_POSITION : string := "~M114" +:+ CRLF.
Definition TEMP : string := "~M105" +:+ CRLF.
Definition PROGRESS : string := "~M27" +:+ CRLF.
Definition STATUS : string := "~M119" +:+ CRLF.
Definition LED_ON : string := "~M146 r255 g255 b255" +:+ CRLF.
Definition LED_OFF : string := "~M146 r0 g0 b0" +:+ CRLF.
Definition PAUSE : string := "~M25" +:+ CRLF.
Definition RESUME : string := "~M24" +:+ CRLF.
Definition CANCEL : string := "~M26" +:+ CRLF.
Definition HOME : string := "~G28" +:+ CRLF.
End PROTOCOL_MESSAGES.

(** The sources handed to the regular-expression engine.  [field] and
    [coordinates] are built from template literals: in [field] the
    doubled backslashes leave [\r?\n] in the source, in [coordinates] the
    single ones are dropped by the template, leaving [s*] and [[^s]]. *)
Module REGEX_PATTERNS.
Definition field (fieldName : string) : string := fieldName +:+ ": ?(.+?)\r?\n".
Definition coordinates (fieldName : string) : string := fieldName +:+ ":s*([^s]+)".
Definition buildVolume : string := "X:\s*([\-\d.]+)\s+Y:\s*([\-\d.]+)\s+Z:\s*([\-\d.]+)".
Definition macAddress : string := "Mac Address:\s*([0-9A-Fa-f:]+)".
Definition t0 : string := "T0:([\-\d.]+)\/([\-\d.]+)".
Definition t1 : string := "T1:([\-\d.]+)\/([\-\d.]+)".
Definition bed : string := "B:([\-\d.]+)\/([\-\d.]+)".
Definition progressBytes : string := "SD printing byte\s+(\d+)\/(\d+)".
Definition progressLayers : string := "Layer:\s+(\d+)\/(\d+)".
Definition led : string := "LED:\s*(\d+)".
Definition currentFile : string := "CurrentFile:\s*(.+)\r?".
Definition statusFlags : string := "Status:\s*([^\r\n]+)".
End REGEX_PATTERNS.

(** ** The transaction primitive: [sendAndReceive] *)

Module Transaction.

(** How the promise returned by [sendAndReceive] settles. *)
Inductive Settled :=
  | Resolved (data : string)
  | Rejected (message : string).

(** What the socket can report to the handlers.  [EvEnd] is the peer
    closing the stream; no handler is registered for it. *)
Inductive SocketEvent :=
  | EvConnect
  | EvData (chunk : string)
  | EvTimeout
  | EvError (message : string)
  | EvEnd.

Record Client := mkClient {
  connections : list (Z * string);  (* connect(port, host) calls made *)
  idle_timeout : option Z;          (* setTimeout *)
  written : list string;            (* write(message) calls made *)
  destroyed : bool;
  promise : option Settled
}.

Definition destroy (c : Client) : Client :=
  mkClient (connections c) (idle_timeout c) (written c) true (promise c).

Definition write (message : string) (c : Client) : Client :=
  mkClient (connections c) (idle_timeout c) (written c ++ [message])
           (destroyed c) (promise c).

(** [resolve] and [reject] settle the promise once; later calls are
    ignored. *)
Definition settle (r : Settled) (c : Client) : Client :=
  match promise c with
  | Some _ => c
  | None => mkClient (connections c) (idle_timeout c) (written c)
                     (destroyed c) (Some r)
  end.

(** The executor body: a new socket, a 5000 ms idle timeout, one
    connect to the printer port. *)
Definition executor (ip : string) : Client :=
  mkClient [(PRINTER_PORT, ip)] (Some 5000) [] false None.

Definition on_connect (message : string) (c : Client) : Client :=
  write message c.

Definition on_data (data : string) (c : Client) : Client :=
  settle (Resolved data) (destroy c).

Definition on_timeout (c : Client) : Client :=
  settle (Rejected "Connection timeout") (destroy c).

Definition on_error (err : string) (c : Client) : Client :=
  settle (Rejected err) c.

(** The socket's side of an event.  A destroyed socket reports nothing
    more.  The runtime raises ['error'] while destroying the socket and
    closes it when the peer ends the stream, so in both cases the
    socket is already destroyed when (if) a handler runs. *)
Definition emit (message : string) (c : Client) (ev : SocketEvent) : Client :=
  if destroyed c then c
  else match ev with
       | EvConnect => on_connect message c
       | EvData chunk => on_data chunk c
       | EvTimeout => on_timeout c
       | EvError err => on_error err (destroy c)
       | EvEnd => destroy c
       end.

Definition sendAndReceive_run (ip message : string) (evs : list SocketEvent) : Client :=
  fold_left (emit message) evs (executor ip).

Definition outcome (ip message : string) (evs : list SocketEvent) : option Settled :=
  promise (sendAndReceive_run ip message evs).

(** The outcome the contract of the transaction client prescribes:
    the first data chunk resolves, a timeout or an error rejects, and
    a stream that ends before any of them leaves the call pending. *)
Fixpoint expected_outcome (evs : list SocketEvent) : option Settled :=
  match evs with
  | [] => None
  | EvConnect :: evs' => expected_outcome evs'
  | EvData chunk :: _ => Some (Resolved chunk)
  | EvTimeout :: _ => Some (Rejected "Connection timeout")
  | EvError err :: _ => Some (Rejected err)
  | EvEnd :: _ => None
  end.

End Transaction.

(** ** JavaScript values and numbers *)

Module JS.

Inductive JSVal :=
| VUndefined
| VNull
| VBool (b : bool)
| VNum (x : float)
| VStr (s : string).

(** An object literal: its own properties in insertion order. *)
Definition Obj := list (string * JSVal).

Fixpoint obj_get (o : Obj) (key : string) : option JSVal :=
  match o with
  | [] => None
  | (k, v) :: o' => if String.eqb k key then Some v else obj_get o' key
  end.

(** [o[key] = v]: an existing property keeps its place, a new one goes
    last. *)
Fixpoint obj_set (o : Obj) (key : string) (v : JSVal) : Obj :=
  match o with
  | [] => [(key, v)]
  | (k, w) :: o' =>
      if String.eqb k key then (k, v) :: o' else (k, w) :: obj_set o' key v
  end.

Definition obj_keys (o : Obj) : list string := map fst o.

(** The nearest double of an integer (round to nearest, ties to even). *)
Definition Z2F (z : Z) : float := SF2Prim (binary_normalize prec emax z 0 false).

(** Integers as doubles.  Where the code only compares numbers (polling
    intervals, LED channels) a number is written as the integer it is,
    and [Infinity] as 2^1024, the first power of two that no finite
    double reaches: it is above every finite double and equal to itself,
    as [Infinity] is under [<] and [Math.max]. *)
Definition Infinity : Z := 2 ^ 1024.

(** The double nearest to a non-negative integer (ties to even), which
    is the integer itself up to 2^53; from 2^1024 - 2^970 on the
    nearest double is [Infinity]. *)
Definition nearest_double_nonneg (n : Z) : Z :=
  let bits := Z.log2 n + 1 in
  if bits <=? 53 then n
  else
    let ulp := 2 ^ (bits - 53) in
    let q := n / ulp in
    let r := n mod ulp in
    let q := if 2 * r <? ulp then q
             else if ulp <? 2 * r then q + 1
             else if Z.even q then q else q + 1 in
    if Infinity <=? q * ulp then Infinity else q * ulp.

Definition nearest_double (n : Z) : Z :=
  if n <? 0 then - nearest_double_nonneg (- n) else nearest_double_nonneg n.

(** The integer a double is written as, when it is one. *)
Definition integer_of_double (x : float) : option Z :=
  match Prim2SF x with
  | S754_zero _ => Some 0
  | S754_infinity s => Some (if s then - Infinity else Infinity)
  | S754_nan => None
  | S754_finite s m e =>
      if 0 <=? e then Some ((if s then Z.neg m else Z.pos m) * 2 ^ e)
      else if Z.pos m mod 2 ^ (- e) =? 0
           then Some ((if s then Z.neg m else Z.pos m) / 2 ^ (- e))
           else None
  end.

(** [Math.floor]. *)
Definition Math_floor (x : float) : float :=
  match Prim2SF x with
  | S754_finite s m e =>
      if 0 <=? e then x
      else
        let q := Z.shiftr (if s then Z.neg m else Z.pos m) (- e) in
        if q =? 0 then zero else Z2F q
  | _ => x
  end.

(** [x === 0] on numbers, and the truth value of a number. *)
Definition num_is_zero (x : float) : bool := PrimFloat.eqb x zero.

Definition num_truthy (x : float) : bool := negb (is_nan x || num_is_zero x).

Definition strict_eq_zero (v : JSVal) : bool :=
  match v with
  | VNum x => num_is_zero x
  | _ => false
  end.

(** *** [parseInt] *)

(** Strings.  A JavaScript string is a sequence of 16-bit code units;
    the strings here are those whose code units are below 256, one
    character for each code unit (so ["160"%char] is U+00A0).

    [WhiteSpace] and [LineTerminator], which [trim] and [parseInt]
    skip: of the code units below 256 these are tab, line feed, vertical
    tab, form feed, carriage return, space and the no-break space
    U+00A0. *)
Definition is_white_space (c : ascii) : bool :=
  let n := nat_of_ascii c in
  ((9 <=? n) && (n <=? 13) || (n =? 32) || (n =? 160))%nat.

Definition digit_value (c : ascii) : option Z :=
  let n := Z.of_nat (nat_of_ascii c) in
  if (48 <=? n) && (n <=? 57) then Some (n - 48)
  else if (97 <=? n) && (n <=? 122) then Some (n - 87)
  else if (65 <=? n) && (n <=? 90) then Some (n - 55)
  else None.

Fixpoint skip_white_space (s : string) : string :=
  match s with
  | String c s' => if is_white_space c then skip_white_space s' else s
  | EmptyString => s
  end.

(** The value of the longest prefix of digits of the radix, if any. *)
Fixpoint digits_prefix (radix : Z) (s : string) (acc : option Z) : option Z :=
  match s with
  | EmptyString => acc
  | String c s' =>
      match digit_value c with
      | Some d =>
          if d <? radix
          then digits_prefix radix s' (Some (radix * default 0 acc + d))
          else acc
      | None => acc
      end
  end.

Definition strip_sign (s : string) : bool * string :=
  match s with
  | String "-"%char s' => (true, s')
  | String "+"%char s' => (false, s')
  | _ => (false, s)
  end.

Definition strip_hex_prefix (s : string) : option string :=
  match s with
  | String "0"%char (String "x"%char s') => Some s'
  | String "0"%char (String "X"%char s') => Some s'
  | _ => None
  end.

(** [parseInt(s)] and [parseInt(s, radix)]: sign and magnitude of the
    integer read, [None] for [NaN].  Without a radix a [0x] prefix
    selects base 16; with radix 16 the prefix is skipped. *)
Definition parse_int (radix : option Z) (s : string) : option (bool * Z) :=
  let '(neg, s1) := strip_sign (skip_white_space s) in
  let '(r, s2) :=
    match radix, strip_hex_prefix s1 with
    | None, Some s' => (16, s')
    | None, None => (10, s1)
    | Some r, Some s' => if r =? 16 then (16, s') else (r, s1)
    | Some r, None => (r, s1)
    end in
  match digits_prefix r s2 None with
  | Some n => Some (neg, n)
  | None => None
  end.

(** [parseInt(g)] for a capture group [g]; a group that is missing is
    [undefined], which parses to [NaN]. *)
Definition parseInt (g : option string) : float :=
  match g with
  | Some s =>
      match parse_int None s with
      | Some (neg, n) => if neg then PrimFloat.opp (Z2F n) else Z2F n
      | None => nan
      end
  | None => nan
  end.

(** A match result [m] of [String.prototype.match]: [m[i]]. *)
Definition group (m : list string) (i : nat) : option string := m !! i.

Definition group_val (m : list string) (i : nat) : JSVal :=
  match group m i with
  | Some s => VStr s
  | None => VUndefined
  end.

(** [String.prototype.trim]: white space and line terminators are
    taken off both ends. *)
Definition trim (s : string) : string :=
  String.rev (skip_white_space (String.rev (skip_white_space s))).

End JS.

(** ** The snapshot assembler: [fetchSnapshot] *)

Module Assembler.
Import JS Transaction.

(** One call of [sendAndReceive]: the address and the line sent. *)
Definition Call : Type := string * string.

(** An awaited computation either returns or stays suspended on a promise
    that never settles. *)
Inductive Await (A : Type) :=
| Returned (a : A)
| Suspended.
Arguments Returned {A} a.
Arguments Suspended {A}.

#[global] Instance Await_fmap : FMap Await :=
  fun A B f x => match x with Returned a => Returned (f a) | Suspended => Suspended end.

(** Asynchronous code threads the calls made so far. *)
Definition Async (A : Type) : Type := list Call -> Await A * list Call.

Definition ret {A} (a : A) : Async A := fun log => (Returned a, log).

Definition bind {A B} (m : Async A) (k : A -> Async B) : Async B :=
  fun log =>
    match m log with
    | (Returned a, log') => k a log'
    | (Suspended, log') => (Suspended, log')
    end.

Notation "'await' x <- m ;; k" := (bind m (fun x => k))
  (at level 10, x name, m at level 99, k at level 200).

Record StepError := mkStepError { step : string; error : string }.

Record Snapshot := mkSnapshot {
  info : Obj;
  headLocation : Obj;
  temperatures : Obj;
  progress : Obj;
  status : Obj;
  errors : list StepError;
  timestamp : string
}.

Section WithEnvironment.

(** [subject.match(new RegExp(source))]: the match and its groups, or
    [None] for [null]. *)
Variable str_match : string -> string -> option (list string).

(** The socket events of a call, given the calls made before it. *)
Variable network : list Call -> Call -> list SocketEvent.

(** [new Date().toISOString()] after the given calls. *)
Variable clock : list Call -> string.

Definition sendAndReceive (ip message : string) : Async Settled :=
  fun log =>
    (match outcome ip message (network log (ip, message)) with
     | Some r => Returned r
     | None => Suspended
     end, log ++ [(ip, message)]).

Definition now : Async string := fun log => (Returned (clock log), log).

(** [if (match) o[key] = match[1];] *)
Definition set_if_match (o : Obj) (key : string) (m : option (list string)) (i : nat) : Obj :=
  match m with
  | Some g => obj_set o key (group_val g i)
  | None => o
  end.

Definition info_mappings : list (string * string) :=
  [("Type", "Machine Type"); ("Name", "Machine Name"); ("Firmware", "Firmware");
   ("SN", "SN"); ("Tool Count", "Tool Count")]%string.

Definition parse_info (infoResult : string) : Obj :=
  let info :=
    fold_left
      (fun o '(key, src) => set_if_match o key (str_match infoResult (REGEX_PATTERNS.field src)) 1)
      info_mappings [] in
  let info := set_if_match info "Mac Address" (str_match infoResult REGEX_PATTERNS.macAddress) 1 in
  match str_match infoResult REGEX_PATTERNS.buildVolume with
  | Some vol =>
      obj_set (obj_set (obj_set info "BuildVolumeX" (group_val vol 1))
                       "BuildVolumeY" (group_val vol 2))
              "BuildVolumeZ" (group_val vol 3)
  | None => info
  end.

Definition parse_head (headRes : string) : Obj :=
  fold_left
    (fun o field => set_if_match o field (str_match headRes (REGEX_PATTERNS.coordinates field)) 1)
    ["X"; "Y"; "Z"]%string [].

(** [m ? m[i] : null] *)
Definition group_or_null (m : option (list string)) (i : nat) : JSVal :=
  match m with
  | Some g => group_val g i
  | None => VNull
  end.

Definition temperatures_default : Obj :=
  [("Temperature", VNull); ("TargetTemperature", VNull)]%string.

Definition parse_temperatures (tempRes : string) : Obj :=
  let t0 := str_match tempRes REGEX_PATTERNS.t0 in
  let t1 := str_match tempRes REGEX_PATTERNS.t1 in
  let bed := str_match tempRes REGEX_PATTERNS.bed in
  [("Temperature", group_or_null t0 1);
   ("TargetTemperature", group_or_null t0 2);
   ("T1Temperature", group_or_null t1 1);
   ("T1TargetTemperature", group_or_null t1 2);
   ("BedTemperature", group_or_null bed 1);
   ("BedTargetTemperature", group_or_null bed 2)]%string.

Definition progress_default : Obj :=
  [("BytesPrinted", VNum zero); ("BytesTotal", VNum zero);
   ("PercentageCompleted", VNum zero)]%string.

(** The progress object from the two matches of the reply. *)
Definition progress_of_matches (bytes layers : option (list string)) : Obj :=
  let progress :=
    match bytes with
    | Some b =>
        let printed := parseInt (group b 1) in
        let total := parseInt (group b 2) in
        let percentage :=
          if num_is_zero total then zero
          else Math_floor ((printed / total) * 100)%float in
        [("BytesPrinted", VNum printed); ("BytesTotal", VNum total);
         ("PercentageCompleted", VNum percentage)]%string
    | None => progress_default
    end in
  match layers with
  | Some l =>
      let layerCurrent := parseInt (group l 1) in
      let layerTotal := parseInt (group l 2) in
      let progress := obj_set progress "LayerCurrent" (VNum layerCurrent) in
      let progress := obj_set progress "LayerTotal" (VNum layerTotal) in
      (* If we didn't compute percentage from bytes, compute from layers *)
      if strict_eq_zero (default VUndefined (obj_get progress "PercentageCompleted"))
         && num_truthy layerTotal
      then obj_set progress "PercentageCompleted"
                   (VNum (Math_floor ((layerCurrent / layerTotal) * 100)%float))
      else progress
  | None => progress
  end.

Definition parse_progress (progRes : string) : Obj :=
  progress_of_matches (str_match progRes REGEX_PATTERNS.progressBytes)
                      (str_match progRes REGEX_PATTERNS.progressLayers).

Definition parse_status (statusRes : string) : Obj :=
  let status :=
    fold_left
      (fun o field => set_if_match o field (str_match statusRes (REGEX_PATTERNS.field field)) 1)
      ["Status"; "MachineStatus"; "MoveMode"; "Endstop"]%string [] in
  let status := set_if_match status "LED" (str_match statusRes REGEX_PATTERNS.led) 1 in
  let status := set_if_match status "CurrentFile" (str_match statusRes REGEX_PATTERNS.currentFile) 1 in
  set_if_match status "StatusFlags" (str_match statusRes REGEX_PATTERNS.statusFlags) 1.

(** [errors.push({ step, error: e.message })] in a [catch]. *)
Definition push_error (errors : list StepError) (name message : string) : list StepError :=
  errors ++ [mkStepError name message].

Definition fetchSnapshot (ip : string) : Async Snapshot :=
  let errors := [] in
  await r <- sendAndReceive ip PROTOCOL_MESSAGES.CONTROL ;;
  let errors :=
    match r with
    | Resolved _ => errors
    | Rejected e => push_error errors "CONTROL" e
    end in
  await r <- sendAndReceive ip PROTOCOL_MESSAGES.INFO ;;
  let '(info, errors) :=
    match r with
    | Resolved infoResult => (parse_info infoResult, errors)
    | Rejected e => ([], push_error errors "INFO" e)
    end in
  await r <- sendAndReceive ip PROTOCOL_MESSAGES.HEAD_POSITION ;;
  let '(headLocation, errors) :=
    match r with
    | Resolved headRes => (parse_head headRes, errors)
    | Rejected e => ([], push_error errors "HEAD_POSITION" e)
    end in
  await r <- sendAndReceive ip PROTOCOL_MESSAGES.TEMP ;;
  let '(temperatures, errors) :=
    match r with
    | Resolved tempRes => (parse_temperatures tempRes, errors)
    | Rejected e => (temperatures_default, push_error errors "TEMP" e)
    end in
  await r <- sendAndReceive ip PROTOCOL_MESSAGES.PROGRESS ;;
  let '(progress, errors) :=
    match r with
    | Resolved progRes => (parse_progress progRes, errors)
    | Rejected e => (progress_default, push_error errors "PROGRESS" e)
    end in
  await r <- sendAndReceive ip PROTOCOL_MESSAGES.STATUS ;;
  let '(status, errors) :=
    match r with
    | Resolved statusRes => (parse_status statusRes, errors)
    | Rejected e => ([], push_error errors "STATUS" e)
    end in
  await ts <- now ;;
  ret (mkSnapshot info headLocation temperatures progress status errors ts).

(** *** What the contract of the assembler prescribes *)

(** The six steps of one assembly, in order. *)
Definition steps (ip : string) : list Call :=
  [(ip, PROTOCOL_MESSAGES.CONTROL); (ip, PROTOCOL_MESSAGES.INFO);
   (ip, PROTOCOL_MESSAGES.HEAD_POSITION); (ip, PROTOCOL_MESSAGES.TEMP);
   (ip, PROTOCOL_MESSAGES.PROGRESS); (ip, PROTOCOL_MESSAGES.STATUS)].

(** How the [k]-th step settles when the steps before it have run. *)
Definition step_outcome (ip : string) (log : list Call) (k : nat) : option Settled :=
  match steps ip !! k with
  | Some c => outcome c.1 c.2 (network (log ++ take k (steps ip)) c)
  | None => None
  end.

(** A failed step leaves one record, a step that succeeded none. *)
Definition step_errors (name : string) (r : Settled) : list StepError :=
  match r with
  | Resolved _ => []
  | Rejected e => [mkStepError name e]
  end.

(** A section is parsed from the reply, or is its default. *)
Definition section_of (parse : string -> Obj) (dflt : Obj) (r : Settled) : Obj :=
  match r with
  | Resolved reply => parse reply
  | Rejected _ => dflt
  end.

(** The percentage of the progress policy: the byte ratio when the bytes
    matched with a non-zero total; otherwise the layer ratio when the
    layers matched with a non-zero total; otherwise 0. *)
Definition percentage_policy (bytes layers : option (list string)) : float :=
  let from_layers :=
    match layers with
    | Some l =>
        if negb (num_is_zero (parseInt (group l 2)))
        then Math_floor ((parseInt (group l 1) / parseInt (group l 2)) * 100)%float
        else zero
    | None => zero
    end in
  match bytes with
  | Some b =>
      if negb (num_is_zero (parseInt (group b 2)))
      then Math_floor ((parseInt (group b 1) / parseInt (group b 2)) * 100)%float
      else from_layers
  | None => from_layers
  end.

(** The byte percentage of a match, as both handlers compute it. *)
Definition byte_percentage (b : list string) : float :=
  if num_is_zero (parseInt (group b 2)) then zero
  else Math_floor ((parseInt (group b 1) / parseInt (group b 2)) * 100)%float.

Definition percentage (progress : Obj) : option JSVal :=
  obj_get progress "PercentageCompleted".

End WithEnvironment.

End Assembler.

(** ** Request handlers: [GET /:ip/progress] and [POST /:ip/led] *)

Module Routes.
Import JS Transaction Assembler.

(** A value of a parsed JSON body.  Numbers are integers here: the
    handlers below only compare them. *)
Inductive Json :=
| JUndefined
| JNull
| JBool (b : bool)
| JNum (n : Z)
| JStr (s : string).

Inductive Response :=
| Json200 (body : Obj)
| Json500 (error : string).

(** [const { state, r, g, b } = req.body;] *)
Record LedBody := mkLedBody { state : Json; r : Json; g : Json; b : Json }.

(** [Math.min(255, Math.max(0, x))] *)
Definition clamp_channel (x : Z) : Z := Z.min 255 (Z.max 0 x).

Definition led_custom (r g b : Z) : string :=
  "~M146 r" +:+ pretty r +:+ " g" +:+ pretty g +:+ " b" +:+ pretty b +:+ CRLF.

(** [v === s] for a string [s]. *)
Definition strict_eq_str (v : Json) (s : string) : bool :=
  match v with
  | JStr s' => String.eqb s' s
  | _ => false
  end.

Definition led_command (body : LedBody) : string :=
  if strict_eq_str (state body) "off" then PROTOCOL_MESSAGES.LED_OFF
  else
    match r body, g body, b body with
    | JNum r, JNum g, JNum b =>
        (* Custom RGB values (0-255) *)
        led_custom (clamp_channel r) (clamp_channel g) (clamp_channel b)
    | _, _, _ => PROTOCOL_MESSAGES.LED_ON
    end.

Section WithEnvironment.

Variable str_match : string -> string -> option (list string).
Variable network : list Call -> Call -> list SocketEvent.

(** The body of the progress reply, from the device's answer. *)
Definition progress_body (infoResult : string) : Obj :=
  let bytes := str_match infoResult REGEX_PATTERNS.progressBytes in
  let layers := str_match infoResult REGEX_PATTERNS.progressLayers in
  let '(printed, total, percentage) :=
    match bytes with
    | Some m =>
        let printed := parseInt (group m 1) in
        let total := parseInt (group m 2) in
        (printed, total,
         if num_is_zero total then zero
         else Math_floor ((printed / total) * 100)%float)
    | None => (zero, zero, zero)
    end in
  let '(percentage, layerCurrent, layerTotal) :=
    match layers with
    | Some m =>
        let layerCurrent := parseInt (group m 1) in
        let layerTotal := parseInt (group m 2) in
        (if negb (num_truthy percentage) && num_truthy layerTotal
         then Math_floor ((layerCurrent / layerTotal) * 100)%float
         else percentage,
         VNum layerCurrent, VNum layerTotal)
    | None => (percentage, VNull, VNull)
    end in
  [("BytesPrinted", VNum printed); ("BytesTotal", VNum total);
   ("PercentageCompleted", VNum percentage);
   ("LayerCurrent", layerCurrent); ("LayerTotal", layerTotal)]%string.

Definition get_progress (ip : string) : Async Response :=
  await r <- sendAndReceive network ip PROTOCOL_MESSAGES.CONTROL ;;
  match r with
  | Rejected e => ret (Json500 e)
  | Resolved _ =>
      await r <- sendAndReceive network ip PROTOCOL_MESSAGES.PROGRESS ;;
      match r with
      | Rejected e => ret (Json500 e)
      | Resolved infoResult => ret (Json200 (progress_body infoResult))
      end
  end.

Definition post_led (ip : string) (body : LedBody) : Async Response :=
  await r <- sendAndReceive network ip PROTOCOL_MESSAGES.CONTROL ;;
  match r with
  | Rejected e => ret (Json500 e)
  | Resolved _ =>
      let command := led_command body in
      await r <- sendAndReceive network ip command ;;
      match r with
      | Rejected e => ret (Json500 e)
      | Resolved result =>
          ret (Json200 [("success", VBool true); ("response", VStr (trim result))]%string)
      end
  end.

End WithEnvironment.

End Routes.

(** ** The WebSocket subscription hub *)

Module Hub.
Import JS Assembler.

(** Object identities: a WebSocket connection, an entry object of the
    registry, an interval timer. *)
Abbreviation WS := nat (only parsing).
Abbreviation Ref := nat (only parsing).
Abbreviation TimerId := nat (only parsing).

(** [{ clients: Set<WebSocket>, timer, intervalMs }].  A [Set] iterates
    in insertion order and holds no element twice. *)
Record Entry := mkEntry {
  clients : list WS;
  intervalMs : Z;
  timer : TimerId
}.

(** A running [setInterval(callback, delay)]: the callback closes over
    [ip] and over the entry object; [t_delay] is the delay that was
    asked for. *)
Record Timer := mkTimer {
  t_ip : string;
  t_entry : Ref;
  t_delay : Z
}.

(** The runtime's timers take a delay from 1 to [TIMEOUT_MAX]
    milliseconds; with any other delay they run at 1 ms. *)
Definition TIMEOUT_MAX : Z := 2147483647.

(** A timer fires every [t_period] milliseconds. *)
Definition t_period (tm : Timer) : Z :=
  if (1 <=? t_delay tm) && (t_delay tm <=? TIMEOUT_MAX) then t_delay tm else 1.

(** A [fetchSnapshot] that has been started and is being awaited: by the
    callback of a timer, which goes on with the clients of the entry
    object it closes over, or by a handler that answers one connection. *)
Inductive Pending :=
| PollTick (ip : string) (entry : Ref)
| OneOff (ip : string) (ws : WS).

Record State := mkState {
  heap : gmap Ref Entry;             (* the entry objects *)
  subscriptions : gmap string Ref;   (* const subscriptions = new Map() *)
  timers : gmap TimerId Timer;       (* the interval timers that run *)
  pending : list Pending;
  next_ref : Ref;
  next_timer : TimerId
}.

Definition init : State := mkState ∅ ∅ ∅ [] 0%nat 0%nat.

Inductive ServerMsg :=
| MsgSnapshot (ip : string) (data : Snapshot)
| MsgError (ip : option string) (error : string)
| MsgSubscribed (ip : string) (intervalMs : Z)
| MsgUnsubscribed (ip : string).

Inductive Effect :=
| Sent (ws : WS) (msg : ServerMsg)
| UnhandledRejection (message : string).

(** The transport's side of a connection when a broadcast runs:
    [ws.readyState === ws.OPEN], and whether [ws.send] throws. *)
Record Transport := mkTransport {
  is_open : WS -> bool;
  send_throws : WS -> option string
}.

(** A client message.  [Unparsable]: [JSON.parse] or the access to the
    fields throws.  [Parsed]: the fields [{ type, ip, intervalMs }]; the
    empty string stands for a missing [type] or [ip], which is as falsy
    as the empty string itself. *)
Inductive ClientMsg :=
| Unparsable
| Parsed (type : string) (ip : string) (interval : Routes.Json).

Inductive Event :=
| Connection (ws : WS) (query : option (option string * option string))
| Message (ws : WS) (msg : ClientMsg)
| Close (ws : WS)
| Tick (t : TimerId)
| Settle (k : nat) (data : Snapshot) (tr : Transport).

(** *** Sets of clients *)

Definition set_add (ws : WS) (l : list WS) : list WS :=
  if decide (ws ∈ l) then l else l ++ [ws].

Definition set_delete (ws : WS) (l : list WS) : list WS :=
  filter (λ x, x ≠ ws) l.

(** *** Timers *)

Definition setInterval (tm : Timer) (h : State) : TimerId * State :=
  (next_timer h,
   mkState (heap h) (subscriptions h) (<[next_timer h := tm]> (timers h))
           (pending h) (next_ref h) (S (next_timer h))).

Definition clearInterval (t : TimerId) (h : State) : State :=
  mkState (heap h) (subscriptions h) (delete t (timers h))
          (pending h) (next_ref h) (next_timer h).

(** *** The registry *)

Definition set_heap (hp : gmap Ref Entry) (h : State) : State :=
  mkState hp (subscriptions h) (timers h) (pending h) (next_ref h) (next_timer h).

Definition ensurePolling (ip : string) (interval : Z) (h : State) : Ref * State :=
  match subscriptions h !! ip with
  | Some existing =>
      match heap h !! existing with
      | Some e =>
          (* If requested interval is shorter, tighten polling a bit *)
          if interval <? intervalMs e then
            let h := clearInterval (timer e) h in
            let '(t, h) := setInterval (mkTimer ip existing interval) h in
            (existing, set_heap (<[existing := mkEntry (clients e) interval t]> (heap h)) h)
          else (existing, h)
      | None => (existing, h)
      end
  | None =>
      let entry := next_ref h in
      let '(t, h) := setInterval (mkTimer ip entry interval) h in
      (entry,
       mkState (<[entry := mkEntry [] interval t]> (heap h))
               (<[ip := entry]> (subscriptions h))
               (timers h) (pending h) (S entry) (next_timer h))
  end.

Definition clients_add (entry : Ref) (ws : WS) (h : State) : State :=
  set_heap (alter (λ e, mkEntry (set_add ws (clients e)) (intervalMs e) (timer e))
                  entry (heap h)) h.

Definition clients_delete (entry : Ref) (ws : WS) (h : State) : State :=
  set_heap (alter (λ e, mkEntry (set_delete ws (clients e)) (intervalMs e) (timer e))
                  entry (heap h)) h.

Definition cleanupSubscription (ip : string) (h : State) : State :=
  match subscriptions h !! ip with
  | None => h
  | Some entry =>
      match heap h !! entry with
      | Some e =>
          match clients e with
          | [] =>
              let h := clearInterval (timer e) h in
              mkState (heap h) (delete ip (subscriptions h)) (timers h)
                      (pending h) (next_ref h) (next_timer h)
          | _ :: _ => h
          end
      | None => h
      end
  end.

Definition add_pending (p : Pending) (h : State) : State :=
  mkState (heap h) (subscriptions h) (timers h) (pending h ++ [p])
          (next_ref h) (next_timer h).

(** *** Handlers *)

(** [parseInt(url.searchParams.get('interval') || '2000', 10)], then
    [isNaN(interval) ? 2000 : Math.max(500, interval)].  [parseInt]
    returns the double nearest to the integer it reads. *)
Definition query_interval (interval : option string) : Z :=
  let text := match interval with
              | Some (String c s) => String c s
              | _ => "2000"%string
              end in
  match parse_int (Some 10) text with
  | Some (neg, n) => Z.max 500 (nearest_double (if neg then - n else n))
  | None => 2000
  end.

Definition on_connection (ws : WS) (query : option (option string * option string))
    (h : State) : State * list Effect :=
  match query with
  | Some (Some (String c s), interval) =>
      let ip := String c s in
      let '(entry, h) := ensurePolling ip (query_interval interval) h in
      let h := clients_add entry ws h in
      (* Send an immediate snapshot on connect *)
      (add_pending (OneOff ip ws) h, [])
  | _ => (h, [])
  end.

(** [typeof msg.intervalMs === 'number' ? Math.max(500, msg.intervalMs) : 2000] *)
Definition message_interval (interval : Routes.Json) : Z :=
  match interval with
  | Routes.JNum n => Z.max 500 n
  | _ => 2000
  end.

Definition entry_interval (entry : Ref) (h : State) : Z :=
  match heap h !! entry with
  | Some e => intervalMs e
  | None => 0
  end.

Definition on_message (ws : WS) (msg : ClientMsg) (h : State) : State * list Effect :=
  match msg with
  | Unparsable => (h, [Sent ws (MsgError None "Invalid message format")])
  | Parsed _ EmptyString _ => (h, [])
  | Parsed type ip interval =>
      if String.eqb type "subscribe" then
        let '(entry, h) := ensurePolling ip (message_interval interval) h in
        let h := clients_add entry ws h in
        (h, [Sent ws (MsgSubscribed ip (entry_interval entry h))])
      else if String.eqb type "unsubscribe" then
        let h :=
          match subscriptions h !! ip with
          | Some entry => cleanupSubscription ip (clients_delete entry ws h)
          | None => h
          end in
        (h, [Sent ws (MsgUnsubscribed ip)])
      else if String.eqb type "snapshot" then
        (* One-off snapshot request *)
        (add_pending (OneOff ip ws) h, [])
      else (h, [])
  end.

(** One turn of the loop over [subscriptions.entries()]. *)
Definition close_one (ws : WS) (h : State) (kv : string * Ref) : State :=
  cleanupSubscription kv.1 (clients_delete kv.2 ws h).

Definition on_close (ws : WS) (h : State) : State :=
  foldl (close_one ws) h (map_to_list (subscriptions h)).

(** A timer that runs starts [fetchSnapshot(ip)] and awaits it. *)
Definition on_tick (t : TimerId) (h : State) : State :=
  match timers h !! t with
  | Some tm => add_pending (PollTick (t_ip tm) (t_entry tm)) h
  | None => h
  end.

(** [for (const ws of clients) if (ws.readyState === ws.OPEN) ws.send(msg)]:
    what was sent, and the message of the error thrown, if any. *)
Fixpoint send_each (tr : Transport) (l : list WS) (msg : ServerMsg)
    : list Effect * option string :=
  match l with
  | [] => ([], None)
  | ws :: l' =>
      if is_open tr ws then
        match send_throws tr ws with
        | Some e => ([], Some e)
        | None => let '(out, thrown) := send_each tr l' msg in (Sent ws msg :: out, thrown)
        end
      else send_each tr l' msg
  end.

(** The rest of the timer callback once [fetchSnapshot] has returned:
    the [try] body, and the [catch] body when a send throws. *)
Definition broadcast (tr : Transport) (ip : string) (l : list WS) (data : Snapshot)
    : list Effect :=
  match send_each tr l (MsgSnapshot ip data) with
  | (out, None) => out
  | (out, Some e) =>
      match send_each tr l (MsgError (Some ip) e) with
      | (out', None) => out ++ out'
      | (out', Some e') => out ++ out' ++ [UnhandledRejection e']
      end
  end.

Definition entry_clients (entry : Ref) (h : State) : list WS :=
  match heap h !! entry with
  | Some e => clients e
  | None => []
  end.

Definition on_settle (k : nat) (data : Snapshot) (tr : Transport) (h : State)
    : State * list Effect :=
  match pending h !! k with
  | None => (h, [])
  | Some p =>
      let h' := mkState (heap h) (subscriptions h) (timers h) (delete k (pending h))
                        (next_ref h) (next_timer h) in
      (h',
       match p with
       | PollTick ip entry => broadcast tr ip (entry_clients entry h) data
       | OneOff ip ws => broadcast tr ip [ws] data
       end)
  end.

Definition step (h : State) (ev : Event) : State * list Effect :=
  match ev with
  | Connection ws query => on_connection ws query h
  | Message ws msg => on_message ws msg h
  | Close ws => (on_close ws h, [])
  | Tick t => (on_tick t h, [])
  | Settle k data tr => on_settle k data tr h
  end.

Definition run (h : State) (evs : list Event) : State :=
  foldl (λ h ev, (step h ev).1) h evs.

Inductive reachable : State -> Prop :=
| reachable_init : reachable init
| reachable_step h ev : reachable h -> reachable (step h ev).1.

(** *** Observations *)

(** The registry's entry for a device. *)
Definition entry_of (h : State) (ip : string) : option Entry :=
  subscriptions h !! ip ≫= λ r, heap h !! r.

(** The subscriber set of a device: empty when it has no entry. *)
Definition subscribers (h : State) (ip : string) : list WS :=
  match entry_of h ip with
  | Some e => clients e
  | None => []
  end.

Definition pending_ip (p : Pending) : string :=
  match p with
  | PollTick ip _ => ip
  | OneOff ip _ => ip
  end.

(** How many assemblies of a device are in flight. *)
Definition in_flight (h : State) (ip : string) : nat :=
  length (filter (λ p, pending_ip p = ip) (pending h)).

(** *** Consistency of the registry, and what the hub's contract says *)

(** Every registered entry is allocated and its timer runs for it;
    allocated objects and running timers are older than the counters;
    every running timer is the timer of a registered entry. *)
Record wf (h : State) : Prop := mk_wf {
  wf_entry : forall ip r, subscriptions h !! ip = Some r ->
    exists e, heap h !! r = Some e /\
              timers h !! timer e = Some (mkTimer ip r (intervalMs e));
  wf_heap : forall r e, heap h !! r = Some e -> (r < next_ref h)%nat;
  wf_timer : forall t tm, timers h !! t = Some tm ->
    (t < next_timer h)%nat /\
    subscriptions h !! t_ip tm = Some (t_entry tm) /\
    exists e, heap h !! t_entry tm = Some e /\ timer e = t
}.

(** The entry invariant: no registered entry has an empty client set. *)
Definition entries_nonempty (h : State) : Prop :=
  forall ip r e, subscriptions h !! ip = Some r -> heap h !! r = Some e ->
                 clients e <> [].

(** Single flight, as the hub's contract states it: no device ever has
    two assemblies in flight. *)
Definition single_flight : Prop :=
  forall h ip, reachable h -> (in_flight h ip <= 1)%nat.




End Hub.

(** ** Sample devices *)

Module Samples.
Import JS Transaction Assembler.

(** The engine on replies in which no pattern matches, as on ["ok"]. *)
Definition no_match (subject source : string) : option (list string) := None.

(** A printer that answers every command with ["ok"]. *)
Definition answers_ok (log : list Call) (c : Call) : list SocketEvent :=
  [EvConnect; EvData "ok"].

(** A printer whose temperature query times out. *)
Definition temp_times_out (log : list Call) (c : Call) : list SocketEvent :=
  if String.eqb c.2 PROTOCOL_MESSAGES.TEMP then [EvConnect; EvTimeout]
  else [EvConnect; EvData "ok"].

(** A printer that refuses every connection. *)
Definition unreachable (log : list Call) (c : Call) : list SocketEvent :=
  [EvError "connect ECONNREFUSED"].

Definition fixed_clock (log : list Call) : string := "2024-05-01T10:00:00.000Z".

(** A reply to [~M27] early in a print: 500 of 100000 bytes, layer 1 of
    100. *)
Definition progress_reply : string :=
  "CMD M27 Received." +:+ CRLF +:+ "SD printing byte 500/100000" +:+ CRLF
  +:+ "Layer: 1/100" +:+ CRLF +:+ "ok" +:+ CRLF.

(** The engine's answers on [progress_reply]. *)
Definition progress_match (subject source : string) : option (list string) :=
  if String.eqb subject progress_reply then
    if String.eqb source REGEX_PATTERNS.progressBytes
    then Some ["SD printing byte 500/100000"; "500"; "100000"]%string
    else if String.eqb source REGEX_PATTERNS.progressLayers
    then Some ["Layer: 1/100"; "1"; "100"]%string
    else None
  else None.

Definition answers_progress (log : list Call) (c : Call) : list SocketEvent :=
  if String.eqb c.2 PROTOCOL_MESSAGES.PROGRESS then [EvConnect; EvData progress_reply]
  else [EvConnect; EvData "ok"].

(** *** Sample traffic of the hub *)

Definition printer : string := "192.168.0.50".

Definition subscribe (ip : string) (intervalMs : Z) : Hub.ClientMsg :=
  Hub.Parsed "subscribe" ip (Routes.JNum intervalMs).

Definition unsubscribe (ip : string) : Hub.ClientMsg :=
  Hub.Parsed "unsubscribe" ip Routes.JUndefined.

(** The snapshot of a printer that answers ["ok"] to everything. *)
Definition ok_snapshot : Snapshot :=
  mkSnapshot [] [] (parse_temperatures no_match "ok") progress_default [] []
             "2024-05-01T10:00:00.000Z".

(** Connection 1 has closed; the other connections are open and their
    sends succeed. *)
Definition first_closed : Hub.Transport :=
  Hub.mkTransport (fun ws => negb (ws =? 1)%nat) (fun _ => None).

(** All connections are open; the send to connection 2 throws. *)
Definition second_throws : Hub.Transport :=
  Hub.mkTransport (fun _ => true)
    (fun ws => if (ws =? 2)%nat then Some "socket broken"%string else None).

End Samples.

(** ** The other request handlers *)

Module Handlers.
Import JS Transaction Assembler Routes.

Section WithEnvironment.

Variable str_match : string -> string -> option (list string).
Variable network : list Call -> Call -> list SocketEvent.

(** The four query handlers besides [progress]: unlock, one query, and
    the reply parsed as [fetchSnapshot] parses it. *)
Definition get_info (ip : string) : Async Response :=
  await r <- sendAndReceive network ip PROTOCOL_MESSAGES.CONTROL ;;
  match r with
  | Rejected e => ret (Json500 e)
  | Resolved _ =>
      await r <- sendAndReceive network ip PROTOCOL_MESSAGES.INFO ;;
      match r with
      | Rejected e => ret (Json500 e)
      | Resolved infoResult => ret (Json200 (parse_info str_match infoResult))
      end
  end.

Definition get_head_location (ip : string) : Async Response :=
  await r <- sendAndReceive network ip PROTOCOL_MESSAGES.CONTROL ;;
  match r with
  | Rejected e => ret (Json500 e)
  | Resolved _ =>
      await r <- sendAndReceive network ip PROTOCOL_MESSAGES.HEAD_POSITION ;;
      match r with
      | Rejected e => ret (Json500 e)
      | Resolved infoResult => ret (Json200 (parse_head str_match infoResult))
      end
  end.

Definition get_temp (ip : string) : Async Response :=
  await r <- sendAndReceive network ip PROTOCOL_MESSAGES.CONTROL ;;
  match r with
  | Rejected e => ret (Json500 e)
  | Resolved _ =>
      await r <- sendAndReceive network ip PROTOCOL_MESSAGES.TEMP ;;
      match r with
      | Rejected e => ret (Json500 e)
      | Resolved infoResult => ret (Json200 (parse_temperatures str_match infoResult))
      end
  end.

Definition get_status (ip : string) : Async Response :=
  await r <- sendAndReceive network ip PROTOCOL_MESSAGES.CONTROL ;;
  match r with
  | Rejected e => ret (Json500 e)
  | Resolved _ =>
      await r <- sendAndReceive network ip PROTOCOL_MESSAGES.STATUS ;;
      match r with
      | Rejected e => ret (Json500 e)
      | Resolved infoResult => ret (Json200 (parse_status str_match infoResult))
      end
  end.

(** The four command handlers share one body: unlock, the command, and
    the trimmed reply. *)
Definition post_fixed (command : string) (ip : string) : Async Response :=
  await r <- sendAndReceive network ip PROTOCOL_MESSAGES.CONTROL ;;
  match r with
  | Rejected e => ret (Json500 e)
  | Resolved _ =>
      await r <- sendAndReceive network ip command ;;
      match r with
      | Rejected e => ret (Json500 e)
      | Resolved result =>
          ret (Json200 [("success", VBool true); ("response", VStr (trim result))]%string)
      end
  end.

Definition post_pause : string -> Async Response := post_fixed PROTOCOL_MESSAGES.PAUSE.
Definition post_resume : string -> Async Response := post_fixed PROTOCOL_MESSAGES.RESUME.
Definition post_cancel : string -> Async Response := post_fixed PROTOCOL_MESSAGES.CANCEL.
Definition post_home : string -> Async Response := post_fixed PROTOCOL_MESSAGES.HOME.

Definition success_body (result : string) : Obj :=
  [("success", VBool true); ("response", VStr (trim result))]%string.

(** A route of the server that talks to a printer: its handler, the
    line it sends after the unlock, and the body it answers with when
    that line is replied to. *)
Record Route := mkRoute {
  route_name : string;
  route_handler : string -> Async Response;
  route_line : string;
  route_body : string -> Obj
}.

Definition routes (body : LedBody) : list Route :=
  [mkRoute "GET /:ip/info" get_info PROTOCOL_MESSAGES.INFO (parse_info str_match);
   mkRoute "GET /:ip/head-location" get_head_location PROTOCOL_MESSAGES.HEAD_POSITION
           (parse_head str_match);
   mkRoute "GET /:ip/temp" get_temp PROTOCOL_MESSAGES.TEMP (parse_temperatures str_match);
   mkRoute "GET /:ip/progress" (get_progress str_match network) PROTOCOL_MESSAGES.PROGRESS
           (progress_body str_match);
   mkRoute "GET /:ip/status" get_status PROTOCOL_MESSAGES.STATUS (parse_status str_match);
   mkRoute "POST /:ip/led" (fun ip => post_led network ip body) (led_command body)
           success_body;
   mkRoute "POST /:ip/pause" post_pause PROTOCOL_MESSAGES.PAUSE success_body;
   mkRoute "POST /:ip/resume" post_resume PROTOCOL_MESSAGES.RESUME success_body;
   mkRoute "POST /:ip/cancel" post_cancel PROTOCOL_MESSAGES.CANCEL success_body;
   mkRoute "POST /:ip/home" post_home PROTOCOL_MESSAGES.HOME success_body]%string.

(** A printer whose answer to a line does not depend on what was sent
    before. *)
Definition stateless : Prop :=
  forall log log' c, network log c = network log' c.

End WithEnvironment.

End Handlers.

(** ** Properties of all entry objects *)

Module Invariants.
Import Hub.

(** Every allocated entry object satisfies [P]. *)
Definition all_entries (P : Entry -> Prop) (h : State) : Prop :=
  forall r e, heap h !! r = Some e -> P e.

(** An entry object that the registry no longer (or not yet) holds. *)
Definition unregistered (h : State) (r : nat) : Prop :=
  forall ip, subscriptions h !! ip <> Some r.

(** No unregistered entry object has clients. *)
Definition orphans_empty (h : State) : Prop :=
  forall r e, heap h !! r = Some e -> unregistered h r -> clients e = [].

End Invariants.

(** ** The dashboard: LED colour button and temperature history *)

Module Dashboard.
Import JS Routes.

(** One channel of the colour field: [parseInt(color.substr(start, 2), 16)]
    as it arrives in the request body.  [JSON.stringify] writes [NaN] as
    [null] and [-0] as [0]. *)
Definition channel (color : string) (start : nat) : Json :=
  match parse_int (Some 16) (String.substring start 2 color) with
  | Some (neg, n) => JNum (if neg then - n else n)
  | None => JNull
  end.

(** The body the custom LED button posts: [{ r, g, b }], no [state]. *)
Definition led_custom_body (color : string) : LedBody :=
  mkLedBody JUndefined (channel color 1) (channel color 3) (channel color 5).

(** A point of the temperature chart. *)
Record TempPoint := mkTempPoint { time : string; current : float; target : float }.

Definition maxTempHistory : nat := 50.

(** The history kept by [updateTemperature]: the new point is pushed,
    and the oldest one shifted out when the history is over its
    maximum. *)
Definition updateTemperature (point : TempPoint) (tempHistory : list TempPoint)
    : list TempPoint :=
  let tempHistory := tempHistory ++ [point] in
  if (maxTempHistory <? length tempHistory)%nat then tail tempHistory else tempHistory.

(** The history after the readings [points], from the empty history the
    constructor sets. *)
Definition history (points : list TempPoint) : list TempPoint :=
  foldl (fun h p => updateTemperature p h) [] points.

(** [getSelectedInterval]: [parseInt(value, 10) || 10000] on the value
    of the interval field; [parseInt] returns the double nearest to the
    integer it reads, and [NaN] and [0] are falsy. *)
Definition getSelectedInterval (value : string) : Z :=
  match parse_int (Some 10) value with
  | Some (neg, n) =>
      let interval := nearest_double (if neg then - n else n) in
      if interval =? 0 then 10000 else interval
  | None => 10000
  end.

Definition MAX_SAFE_INTEGER : Z := 2 ^ 53 - 1.

Section WithEngine.

(** [String(n)] for a number beyond the safe integers, which is the
    engine's: the shortest digits that read back as the number, in
    exponent notation from 1e21 on, or [Infinity]. *)
Variable number_to_string : Z -> string.

(** [String(n)]: a safe integer is written with all its decimal
    digits. *)
Definition Number_toString (n : Z) : string :=
  if Z.abs n <=? MAX_SAFE_INTEGER then pretty n else number_to_string n.

(** The query of the URL [buildWsUrl] makes, as the server reads it
    back with [url.searchParams.get]: a parameter is set when its value
    is truthy, the interval as [String(intervalMs)]. *)
Definition buildWsUrl (ip : string) (intervalMs : Z) : option string * option string :=
  (match ip with
   | EmptyString => None
   | _ => Some ip
   end,
   if intervalMs =? 0 then None else Some (Number_toString intervalMs)).

(** What [startWebSocket] opens. *)
Definition startWebSocket (ws : nat) (ip value : string) : Hub.Event :=
  Hub.Connection ws (Some (buildWsUrl ip (getSelectedInterval value))).

End WithEngine.

(** What [startAutoRefresh] sends when the socket is connected. *)
Definition startAutoRefresh (ws : nat) (ip value : string) : Hub.Event :=
  Hub.Message ws (Hub.Parsed "subscribe" ip (JNum (getSelectedInterval value))).

End Dashboard.

(** ** More sample devices *)

Module MoreSamples.
Import JS Transaction Assembler.

(** A printer that accepts the temperature query and ends the stream
    without an answer. *)
Definition temp_hangs (log : list Call) (c : Call) : list SocketEvent :=
  if String.eqb c.2 PROTOCOL_MESSAGES.TEMP then [EvConnect; EvEnd]
  else [EvConnect; EvData "ok"].

(** A request body without any of the LED fields. *)
Definition empty_body : Routes.LedBody :=
  Routes.mkLedBody Routes.JUndefined Routes.JUndefined Routes.JUndefined Routes.JUndefined.

(** An engine whose [String(n)] beyond the safe integers is always
    [Infinity]; for the samples, which stay within the safe integers,
    it is never asked. *)
Definition only_safe_integers (n : Z) : string := "Infinity".

End MoreSamples.

(** * Properties *)

(** ** The transaction primitive *)

Section TransactionFacts.
Import Transaction.

Lemma emit_connections message c ev :
  connections (emit message c ev) = connections c.
Proof.
  unfold emit. destruct (destroyed c); [done|].
  destruct ev; simpl; unfold on_data, on_timeout, on_error, settle;
    simpl; by destruct (promise c).
Qed.

Lemma run_connections message evs c :
  connections (fold_left (emit message) evs c) = connections c.
Proof.
  revert c. induction evs as [|ev evs IH]; intros c; simpl; [done|].
  by rewrite IH, emit_connections.
Qed.

(** Once destroyed, the socket and the promise no longer change. *)
Lemma run_destroyed message evs c :
  destroyed c = true -> fold_left (emit message) evs c = c.
Proof.
  intros Hd. induction evs as [|ev evs IH]; simpl; [done|].
  unfold emit at 2. by rewrite Hd.
Qed.

Lemma emit_open message c ev :
  destroyed c = false ->
  emit message c ev =
  match ev with
  | EvConnect => on_connect message c
  | EvData chunk => on_data chunk c
  | EvTimeout => on_timeout c
  | EvError err => on_error err (destroy c)
  | EvEnd => destroy c
  end.
Proof. intros Hd. unfold emit. by rewrite Hd. Qed.

(** While the promise is pending and the socket open, the trace decides
    the outcome, and a settled promise comes with a destroyed socket. *)
Lemma run_outcome message evs c :
  destroyed c = false -> promise c = None ->
  promise (fold_left (emit message) evs c) = expected_outcome evs /\
  (is_Some (promise (fold_left (emit message) evs c)) ->
   destroyed (fold_left (emit message) evs c) = true).
Proof.
  revert c. induction evs as [|ev evs IH]; intros c Hd Hp.
  - simpl. rewrite Hp. split; [done|]. by intros [? [=]].
  - cbn [fold_left]. rewrite emit_open by done.
    destruct ev; cbn [expected_outcome].
    + apply IH; by simpl.
    + rewrite run_destroyed; unfold on_data, settle; simpl; rewrite Hp; by simpl.
    + rewrite run_destroyed; unfold on_timeout, settle; simpl; rewrite Hp; by simpl.
    + rewrite run_destroyed; unfold on_error, settle; simpl; rewrite Hp; by simpl.
    + rewrite run_destroyed by done. simpl. rewrite Hp.
      split; [done|]. by intros [? [=]].
Qed.

(** C9: every call of [sendAndReceive] makes exactly one connection, to
    the printer port of the address given; the promise resolves with the
    first data chunk, rejects with "Connection timeout" on a timeout and
    with the error's message on an error; and whenever the promise has
    settled the socket is destroyed.  The outcome is a value of the
    promise: nothing is thrown. *)
Theorem sendAndReceive_one_connection_closed (ip message : string) (evs : list SocketEvent) :
  let c := sendAndReceive_run ip message evs in
  connections c = [(PRINTER_PORT, ip)] /\
  promise c = expected_outcome evs /\
  match promise c with
  | Some _ => destroyed c = true
  | None => True
  end.
Proof.
  intros c. subst c. unfold sendAndReceive_run.
  split; [by rewrite run_connections|].
  destruct (run_outcome message evs (executor ip) eq_refl eq_refl) as [Ho Hd].
  split; [done|].
  destruct (promise _) eqn:E; [|done]. apply Hd. by eexists.
Qed.

(** The three outcomes on their shortest traces. *)
Example sendAndReceive_outcomes :
  outcome "10.0.0.5" "~M105" [EvConnect; EvData "ok"] = Some (Resolved "ok") /\
  outcome "10.0.0.5" "~M105" [EvConnect; EvTimeout] = Some (Rejected "Connection timeout") /\
  outcome "10.0.0.5" "~M105" [EvError "connect ECONNREFUSED"] = Some (Rejected "connect ECONNREFUSED") /\
  outcome "10.0.0.5" "~M105" [EvConnect; EvEnd; EvData "late"] = None.
Proof. repeat split; reflexivity. Qed.

End TransactionFacts.

(** ** The snapshot assembler *)

Section AssemblerFacts.
Import JS Transaction Assembler.

Variable str_match : string -> string -> option (list string).
Variable network : list Call -> Call -> list SocketEvent.
Variable clock : list Call -> string.

Lemma bind_settled {B} ip message (k : Settled -> Async B) log r :
  outcome ip message (network log (ip, message)) = Some r ->
  bind (sendAndReceive network ip message) k log = k r (log ++ [(ip, message)]).
Proof. intros H. unfold bind, sendAndReceive. by rewrite H. Qed.

(** One pass through the six steps, whatever way each of them settles. *)
Lemma fetchSnapshot_settled ip log r0 r1 r2 r3 r4 r5 :
  step_outcome network ip log 0 = Some r0 ->
  step_outcome network ip log 1 = Some r1 ->
  step_outcome network ip log 2 = Some r2 ->
  step_outcome network ip log 3 = Some r3 ->
  step_outcome network ip log 4 = Some r4 ->
  step_outcome network ip log 5 = Some r5 ->
  fetchSnapshot str_match network clock ip log =
  (Returned
     (mkSnapshot
        (section_of (parse_info str_match) [] r1)
        (section_of (parse_head str_match) [] r2)
        (section_of (parse_temperatures str_match) temperatures_default r3)
        (section_of (parse_progress str_match) progress_default r4)
        (section_of (parse_status str_match) [] r5)
        (step_errors "CONTROL" r0 ++ step_errors "INFO" r1
         ++ step_errors "HEAD_POSITION" r2 ++ step_errors "TEMP" r3
         ++ step_errors "PROGRESS" r4 ++ step_errors "STATUS" r5)
        (clock (log ++ steps ip))),
   log ++ steps ip).
Proof.
  unfold step_outcome. cbn [steps lookup list_lookup take fst snd].
  rewrite app_nil_r. intros H0 H1 H2 H3 H4 H5.
  unfold fetchSnapshot.
  rewrite (bind_settled _ _ _ _ _ H0).
  destruct r0; cbn beta iota zeta;
    rewrite (bind_settled _ _ _ _ _ H1), <- app_assoc; cbn [app];
    destruct r1; cbn beta iota zeta;
    rewrite (bind_settled _ _ _ _ _ H2), <- app_assoc; cbn [app];
    destruct r2; cbn beta iota zeta;
    rewrite (bind_settled _ _ _ _ _ H3), <- app_assoc; cbn [app];
    destruct r3; cbn beta iota zeta;
    rewrite (bind_settled _ _ _ _ _ H4), <- app_assoc; cbn [app];
    destruct r4; cbn beta iota zeta;
    rewrite (bind_settled _ _ _ _ _ H5), <- app_assoc; cbn [app];
    destruct r5; reflexivity.
Qed.

(** C4: whatever way the six transactions settle, [fetchSnapshot]
    returns a snapshot; it has made exactly the calls unlock-control,
    info, head-position, temperature, progress, status, once each and in
    that order; every step that failed left one record in [errors], in
    step order, and its section holds the default; every other section
    is parsed from its reply; the timestamp is the clock's string. *)
Theorem fetchSnapshot_runs_six_steps ip log r0 r1 r2 r3 r4 r5 :
  step_outcome network ip log 0 = Some r0 ->
  step_outcome network ip log 1 = Some r1 ->
  step_outcome network ip log 2 = Some r2 ->
  step_outcome network ip log 3 = Some r3 ->
  step_outcome network ip log 4 = Some r4 ->
  step_outcome network ip log 5 = Some r5 ->
  exists snap,
    fetchSnapshot str_match network clock ip log = (Returned snap, log ++ steps ip) /\
    errors snap =
      step_errors "CONTROL" r0 ++ step_errors "INFO" r1
      ++ step_errors "HEAD_POSITION" r2 ++ step_errors "TEMP" r3
      ++ step_errors "PROGRESS" r4 ++ step_errors "STATUS" r5 /\
    info snap = section_of (parse_info str_match) [] r1 /\
    headLocation snap = section_of (parse_head str_match) [] r2 /\
    temperatures snap = section_of (parse_temperatures str_match) temperatures_default r3 /\
    progress snap = section_of (parse_progress str_match) progress_default r4 /\
    status snap = section_of (parse_status str_match) [] r5 /\
    timestamp snap = clock (log ++ steps ip).
Proof.
  intros H0 H1 H2 H3 H4 H5. eexists. split.
  - by apply fetchSnapshot_settled.
  - repeat split.
Qed.

(** C3: when the temperature transaction fails, the snapshot's
    temperature section is the two-field default: [Temperature] and
    [TargetTemperature] are [null] and the four tool-1 and bed fields are
    absent, although a reply that was received always gives all six
    fields.  The error list has exactly one record of step [TEMP], and
    the other sections depend on their own steps only. *)
Theorem temperature_failure_leaves_two_fields ip log r0 r1 r2 e r4 r5 :
  step_outcome network ip log 0 = Some r0 ->
  step_outcome network ip log 1 = Some r1 ->
  step_outcome network ip log 2 = Some r2 ->
  step_outcome network ip log 3 = Some (Rejected e) ->
  step_outcome network ip log 4 = Some r4 ->
  step_outcome network ip log 5 = Some r5 ->
  exists snap,
    fetchSnapshot str_match network clock ip log = (Returned snap, log ++ steps ip) /\
    obj_keys (temperatures snap) = ["Temperature"; "TargetTemperature"]%string /\
    obj_get (temperatures snap) "Temperature" = Some VNull /\
    obj_get (temperatures snap) "TargetTemperature" = Some VNull /\
    obj_get (temperatures snap) "T1Temperature" = None /\
    obj_get (temperatures snap) "T1TargetTemperature" = None /\
    obj_get (temperatures snap) "BedTemperature" = None /\
    obj_get (temperatures snap) "BedTargetTemperature" = None /\
    (forall tempRes,
        obj_keys (parse_temperatures str_match tempRes) =
        ["Temperature"; "TargetTemperature"; "T1Temperature";
         "T1TargetTemperature"; "BedTemperature"; "BedTargetTemperature"]%string) /\
    filter (fun x => step x = "TEMP"%string) (errors snap) = [mkStepError "TEMP" e] /\
    info snap = section_of (parse_info str_match) [] r1 /\
    headLocation snap = section_of (parse_head str_match) [] r2 /\
    progress snap = section_of (parse_progress str_match) progress_default r4 /\
    status snap = section_of (parse_status str_match) [] r5.
Proof.
  intros H0 H1 H2 H3 H4 H5. eexists. split.
  - by apply fetchSnapshot_settled.
  - cbn [temperatures errors info headLocation progress status section_of].
    repeat split.
    destruct r0, r1, r2, r4, r5; reflexivity.
Qed.

End AssemblerFacts.

Section AssemblerExamples.
Import JS Transaction Assembler Samples.

Lemma fetchSnapshot_runs_six_steps_witness :
  exists snap,
    fetchSnapshot no_match unreachable fixed_clock "10.0.0.5" [] =
      (Returned snap, [] ++ steps "10.0.0.5") /\
    errors snap =
      step_errors "CONTROL" (Rejected "connect ECONNREFUSED")
      ++ step_errors "INFO" (Rejected "connect ECONNREFUSED")
      ++ step_errors "HEAD_POSITION" (Rejected "connect ECONNREFUSED")
      ++ step_errors "TEMP" (Rejected "connect ECONNREFUSED")
      ++ step_errors "PROGRESS" (Rejected "connect ECONNREFUSED")
      ++ step_errors "STATUS" (Rejected "connect ECONNREFUSED") /\
    info snap = section_of (parse_info no_match) [] (Rejected "connect ECONNREFUSED") /\
    headLocation snap = section_of (parse_head no_match) [] (Rejected "connect ECONNREFUSED") /\
    temperatures snap =
      section_of (parse_temperatures no_match) temperatures_default
                 (Rejected "connect ECONNREFUSED") /\
    progress snap =
      section_of (parse_progress no_match) progress_default (Rejected "connect ECONNREFUSED") /\
    status snap = section_of (parse_status no_match) [] (Rejected "connect ECONNREFUSED") /\
    timestamp snap = fixed_clock ([] ++ steps "10.0.0.5").
Proof.
  apply (fetchSnapshot_runs_six_steps no_match unreachable fixed_clock "10.0.0.5" []);
    reflexivity.
Defined.

Lemma temperature_failure_leaves_two_fields_witness :
  exists snap,
    fetchSnapshot no_match temp_times_out fixed_clock "10.0.0.5" [] =
      (Returned snap, [] ++ steps "10.0.0.5") /\
    obj_keys (temperatures snap) = ["Temperature"; "TargetTemperature"]%string /\
    obj_get (temperatures snap) "Temperature" = Some VNull /\
    obj_get (temperatures snap) "TargetTemperature" = Some VNull /\
    obj_get (temperatures snap) "T1Temperature" = None /\
    obj_get (temperatures snap) "T1TargetTemperature" = None /\
    obj_get (temperatures snap) "BedTemperature" = None /\
    obj_get (temperatures snap) "BedTargetTemperature" = None /\
    (forall tempRes,
        obj_keys (parse_temperatures no_match tempRes) =
        ["Temperature"; "TargetTemperature"; "T1Temperature";
         "T1TargetTemperature"; "BedTemperature"; "BedTargetTemperature"]%string) /\
    filter (fun x => step x = "TEMP"%string) (errors snap) =
      [mkStepError "TEMP" "Connection timeout"] /\
    info snap = section_of (parse_info no_match) [] (Resolved "ok") /\
    headLocation snap = section_of (parse_head no_match) [] (Resolved "ok") /\
    progress snap = section_of (parse_progress no_match) progress_default (Resolved "ok") /\
    status snap = section_of (parse_status no_match) [] (Resolved "ok").
Proof.
  apply (temperature_failure_leaves_two_fields no_match temp_times_out fixed_clock
           "10.0.0.5" [] (Resolved "ok"));
    reflexivity.
Defined.

(** The snapshot of a printer whose temperature query times out, and of
    one that answers it without a temperature in the reply. *)
Example temperature_sections :
  (temperatures <$> (fetchSnapshot no_match temp_times_out fixed_clock "10.0.0.5" []).1
   = Returned [("Temperature", VNull); ("TargetTemperature", VNull)]%string) /\
  (temperatures <$> (fetchSnapshot no_match answers_ok fixed_clock "10.0.0.5" []).1
   = Returned [("Temperature", VNull); ("TargetTemperature", VNull);
               ("T1Temperature", VNull); ("T1TargetTemperature", VNull);
               ("BedTemperature", VNull); ("BedTargetTemperature", VNull)]%string).
Proof. split; reflexivity. Qed.

End AssemblerExamples.

(** ** The progress percentage *)

Section ProgressFacts.
Import JS Transaction Assembler Samples.

(** Without a layer match the percentage is the byte percentage, and 0
    when nothing matched. *)
Lemma percentage_without_layers bytes :
  percentage (progress_of_matches bytes None) =
  Some (VNum (match bytes with Some b => byte_percentage b | None => zero end)).
Proof. destruct bytes; reflexivity. Qed.

(** A byte percentage other than 0 is never replaced by the layer one. *)
Lemma percentage_nonzero_bytes_kept b layers :
  num_is_zero (byte_percentage b) = false ->
  percentage (progress_of_matches (Some b) layers) = Some (VNum (byte_percentage b)).
Proof.
  intros Hnz. destruct layers as [l|]; [|reflexivity].
  unfold progress_of_matches, percentage.
  fold (byte_percentage b).
  cbn -[parseInt Math_floor num_is_zero num_truthy byte_percentage group].
  rewrite Hnz. reflexivity.
Qed.

(** A byte percentage of 0 is replaced whenever the layers matched with a
    total other than 0, also when it was computed from a byte total
    other than 0. *)
Lemma percentage_zero_bytes_replaced b l :
  num_is_zero (byte_percentage b) = true ->
  num_truthy (parseInt (group l 2)) = true ->
  percentage (progress_of_matches (Some b) (Some l)) =
  Some (VNum (Math_floor ((parseInt (group l 1) / parseInt (group l 2)) * 100)%float)).
Proof.
  intros Hz Ht.
  unfold progress_of_matches, percentage.
  fold (byte_percentage b).
  cbn -[parseInt Math_floor num_is_zero num_truthy byte_percentage group].
  rewrite Hz, Ht. reflexivity.
Qed.

(** The three worked cases of the policy: 50 of 200 bytes; no bytes and
    layer 3 of 12; no bytes and no layers. *)
Example percentage_worked_cases :
  percentage (progress_of_matches (Some ["SD printing byte 50/200"; "50"; "200"]%string) None)
    = Some (VNum 25) /\
  percentage (progress_of_matches (Some ["SD printing byte 0/0"; "0"; "0"]%string)
                                  (Some ["Layer: 3/12"; "3"; "12"]%string))
    = Some (VNum 25) /\
  percentage (progress_of_matches (Some ["SD printing byte 0/0"; "0"; "0"]%string) None)
    = Some (VNum 0).
Proof. repeat split; reflexivity. Qed.

(** The ratio is computed in doubles: 29/100*100 is just below 29. *)
Example percentage_in_doubles :
  byte_percentage ["SD printing byte 29/100"; "29"; "100"]%string = 28%float /\
  byte_percentage ["SD printing byte 57/100"; "57"; "100"]%string = 56%float /\
  byte_percentage ["SD printing byte 30/100"; "30"; "100"]%string = 30%float.
Proof. repeat split; reflexivity. Qed.

(** C2: on the reply "SD printing byte 500/100000", "Layer: 1/100" the
    byte total is not 0 and the byte percentage is
    floor(500/100000*100) = 0, which is what the policy prescribes;
    [fetchSnapshot] and the progress handler both return the layer
    percentage 1 instead. *)
Theorem percentage_layers_override_bytes :
  let bytes := Some ["SD printing byte 500/100000"; "500"; "100000"]%string in
  let layers := Some ["Layer: 1/100"; "1"; "100"]%string in
  percentage_policy bytes layers = 0%float /\
  percentage (progress_of_matches bytes layers) = Some (VNum 1) /\
  percentage (parse_progress progress_match progress_reply) = Some (VNum 1) /\
  percentage (Routes.progress_body progress_match progress_reply) = Some (VNum 1) /\
  (progress <$> (fetchSnapshot progress_match answers_progress fixed_clock "10.0.0.5" []).1
   = Returned [("BytesPrinted", VNum 500); ("BytesTotal", VNum 100000);
               ("PercentageCompleted", VNum 1); ("LayerCurrent", VNum 1);
               ("LayerTotal", VNum 100)]%string) /\
  ((Routes.get_progress progress_match answers_progress "10.0.0.5" []).1
   = Returned (Routes.Json200
                 [("BytesPrinted", VNum 500); ("BytesTotal", VNum 100000);
                  ("PercentageCompleted", VNum 1); ("LayerCurrent", VNum 1);
                  ("LayerTotal", VNum 100)]%string)).
Proof. repeat split; vm_compute; reflexivity. Qed.

End ProgressFacts.

(** ** The LED handler *)

Section LedFacts.
Import JS Transaction Assembler Routes Samples.

Lemma clamp_channel_range x : 0 <= clamp_channel x <= 255.
Proof. unfold clamp_channel. lia. Qed.

Lemma clamp_channel_cases x :
  (x < 0 -> clamp_channel x = 0) /\
  (255 < x -> clamp_channel x = 255) /\
  (0 <= x <= 255 -> clamp_channel x = x).
Proof. unfold clamp_channel. lia. Qed.

Lemma led_command_off body :
  state body = JStr "off" -> led_command body = PROTOCOL_MESSAGES.LED_OFF.
Proof. intros H. unfold led_command. by rewrite H. Qed.

Lemma strict_eq_str_false v s : v <> JStr s -> strict_eq_str v s = false.
Proof.
  intros H. destruct v as [| |?|?|s']; try reflexivity.
  simpl. apply String.eqb_neq. congruence.
Qed.

Lemma led_command_not_off body :
  state body <> JStr "off" ->
  led_command body =
  match r body, g body, b body with
  | JNum r, JNum g, JNum b =>
      led_custom (clamp_channel r) (clamp_channel g) (clamp_channel b)
  | _, _, _ => PROTOCOL_MESSAGES.LED_ON
  end.
Proof.
  intros H. unfold led_command. by rewrite (strict_eq_str_false _ _ H).
Qed.

Variable network : list Call -> Call -> list SocketEvent.

(** C10: once the unlock has been answered, the handler sends exactly
    one more line, [led_command body].  With [state] equal to 'off' it is
    the LED-off line; otherwise, with numbers [r], [g], [b], it is the
    custom line with each channel clamped into 0..255 (0 below 0, 255
    above 255, unchanged in between); otherwise it is the LED-on line. *)
Theorem post_led_sends_clamped_command ip body log reply :
  outcome ip PROTOCOL_MESSAGES.CONTROL (network log (ip, PROTOCOL_MESSAGES.CONTROL))
    = Some (Resolved reply) ->
  (post_led network ip body log).2 =
    log ++ [(ip, PROTOCOL_MESSAGES.CONTROL); (ip, led_command body)] /\
  (state body = JStr "off" -> led_command body = PROTOCOL_MESSAGES.LED_OFF) /\
  (state body <> JStr "off" ->
   forall x y z, r body = JNum x -> g body = JNum y -> b body = JNum z ->
     led_command body =
       "~M146 r" +:+ pretty (clamp_channel x) +:+ " g" +:+ pretty (clamp_channel y)
       +:+ " b" +:+ pretty (clamp_channel z) +:+ CRLF /\
     0 <= clamp_channel x <= 255 /\ 0 <= clamp_channel y <= 255 /\
     0 <= clamp_channel z <= 255 /\
     (x < 0 -> clamp_channel x = 0) /\ (255 < x -> clamp_channel x = 255) /\
     (y < 0 -> clamp_channel y = 0) /\ (255 < y -> clamp_channel y = 255) /\
     (z < 0 -> clamp_channel z = 0) /\ (255 < z -> clamp_channel z = 255)) /\
  (state body <> JStr "off" ->
   (forall x, r body <> JNum x) \/ (forall y, g body <> JNum y) \/ (forall z, b body <> JNum z) ->
   led_command body = PROTOCOL_MESSAGES.LED_ON).
Proof.
  intros Hc. split; [|split; [|split]].
  - unfold post_led. rewrite (bind_settled _ _ _ _ _ _ Hc). cbn beta iota zeta.
    unfold bind, sendAndReceive.
    destruct (outcome ip (led_command body) _) as [[]|]; unfold ret; cbn [snd];
      by rewrite <- app_assoc.
  - apply led_command_off.
  - intros Hoff x y z Hr Hg Hb.
    rewrite (led_command_not_off _ Hoff), Hr, Hg, Hb.
    pose proof (clamp_channel_range x). pose proof (clamp_channel_range y).
    pose proof (clamp_channel_range z).
    pose proof (clamp_channel_cases x) as (? & ? & _).
    pose proof (clamp_channel_cases y) as (? & ? & _).
    pose proof (clamp_channel_cases z) as (? & ? & _).
    repeat split; auto; lia.
  - intros Hoff Hnum. rewrite (led_command_not_off _ Hoff).
    destruct (r body) as [| |?|x|?], (g body) as [| |?|y|?], (b body) as [| |?|z|?];
      try reflexivity.
    destruct Hnum as [H|[H|H]]; [destruct (H x)|destruct (H y)|destruct (H z)]; done.
Qed.

End LedFacts.

Section LedExamples.
Import JS Transaction Assembler Routes Samples.

Example led_commands :
  led_command (mkLedBody JUndefined (JNum 300) (JNum (-5)) (JNum 17))
    = ("~M146 r255 g0 b17" +:+ CRLF)%string /\
  led_command (mkLedBody (JStr "off") (JNum 300) (JNum (-5)) (JNum 17))
    = PROTOCOL_MESSAGES.LED_OFF /\
  led_command (mkLedBody (JStr "on") (JNum 1) (JStr "2") (JNum 3))
    = PROTOCOL_MESSAGES.LED_ON /\
  led_command (mkLedBody JUndefined JUndefined JUndefined JUndefined)
    = PROTOCOL_MESSAGES.LED_ON.
Proof. repeat split; reflexivity. Qed.

Lemma post_led_sends_clamped_command_witness :
  let body := mkLedBody JUndefined (JNum 300) (JNum (-5)) (JNum 17) in
  (post_led answers_ok "10.0.0.5" body []).2 =
    [] ++ [("10.0.0.5"%string, PROTOCOL_MESSAGES.CONTROL);
           ("10.0.0.5"%string, ("~M146 r255 g0 b17" +:+ CRLF)%string)] /\
  led_command body = ("~M146 r255 g0 b17" +:+ CRLF)%string.
Proof.
  intros body.
  destruct (post_led_sends_clamped_command answers_ok "10.0.0.5" body [] "ok" eq_refl)
    as (Hlog & _ & Hnum & _).
  split; [exact Hlog|].
  refine (proj1 (Hnum _ 300 (-5) 17 eq_refl eq_refl eq_refl)).
  discriminate.
Defined.

End LedExamples.

(** ** The subscription hub *)

Section HubFacts.
Import JS Assembler Hub.

Implicit Types (h : State) (ip : string) (ws : nat).

(** *** Sets of clients *)

Lemma elem_of_set_add ws x l : x ∈ set_add ws l <-> x = ws \/ x ∈ l.
Proof.
  unfold set_add. case_decide as Hin.
  - split; [by right|]. by intros [->|].
  - rewrite elem_of_app, list_elem_of_singleton. tauto.
Qed.

Lemma set_add_nonempty ws l : set_add ws l <> [].
Proof.
  intros HE. assert (ws ∈ set_add ws l) as Hin by (apply elem_of_set_add; by left).
  rewrite HE in Hin. by apply not_elem_of_nil in Hin.
Qed.

Lemma elem_of_set_delete ws x l : x ∈ set_delete ws l <-> x ∈ l /\ x <> ws.
Proof. unfold set_delete. rewrite list_elem_of_filter. tauto. Qed.

Lemma set_delete_absent ws l : ws ∉ l -> set_delete ws l = l.
Proof.
  intros Hn. unfold set_delete. induction l as [|x l IH]; [done|].
  apply not_elem_of_cons in Hn as [Hne Hn].
  rewrite filter_cons_True by done. by rewrite IH.
Qed.

(** *** The registry primitives *)

Lemma wf_inj h ip1 ip2 r :
  wf h -> subscriptions h !! ip1 = Some r -> subscriptions h !! ip2 = Some r -> ip1 = ip2.
Proof.
  intros Hwf H1 H2.
  destruct (wf_entry h Hwf _ _ H1) as (e1 & He1 & Ht1).
  destruct (wf_entry h Hwf _ _ H2) as (e2 & He2 & Ht2).
  rewrite He1 in He2. injection He2 as <-. rewrite Ht1 in Ht2. by injection Ht2.
Qed.

Lemma wf_init : wf init.
Proof. split; simpl; intros *; by rewrite lookup_empty. Qed.

(** Changing the client set of an entry object keeps the registry
    consistent. *)
Lemma wf_alter_clients h r (f : list nat -> list nat) :
  wf h ->
  wf (set_heap (alter (fun e => mkEntry (f (clients e)) (intervalMs e) (timer e))
                      r (heap h)) h).
Proof.
  intros [He Hh Ht]. split; simpl.
  - intros ip r' Hs. destruct (He _ _ Hs) as (e & Hr & Htm).
    destruct (decide (r = r')) as [->|Hne].
    + eexists. rewrite lookup_alter_eq, Hr. simpl. split; [done|]. by simpl.
    + exists e. by rewrite lookup_alter_ne.
  - intros r' e. rewrite lookup_alter_Some.
    intros [(-> & e' & He' & _)|(_ & He')]; eauto.
  - intros t tm Htm. destruct (Ht _ _ Htm) as (Hlt & Hs & e & Hr & Hte).
    split; [done|]. split; [done|].
    destruct (decide (r = t_entry tm)) as [->|Hne].
    + eexists. rewrite lookup_alter_eq, Hr. simpl. split; [done|]. by simpl.
    + exists e. by rewrite lookup_alter_ne.
Qed.

Lemma clients_add_wf h r ws : wf h -> wf (clients_add r ws h).
Proof. apply wf_alter_clients. Qed.

Lemma clients_delete_wf h r ws : wf h -> wf (clients_delete r ws h).
Proof. apply wf_alter_clients. Qed.

(** Two registered entries with the same timer are the same entry. *)
Lemma wf_timer_owner h ip1 ip2 r1 r2 e1 e2 :
  wf h ->
  subscriptions h !! ip1 = Some r1 -> heap h !! r1 = Some e1 ->
  subscriptions h !! ip2 = Some r2 -> heap h !! r2 = Some e2 ->
  timer e1 = timer e2 -> ip1 = ip2 /\ r1 = r2.
Proof.
  intros Hwf Hs1 Hr1 Hs2 Hr2 Heq.
  destruct (wf_entry h Hwf _ _ Hs1) as (e1' & He1 & Ht1).
  destruct (wf_entry h Hwf _ _ Hs2) as (e2' & He2 & Ht2).
  rewrite Hr1 in He1. injection He1 as <-.
  rewrite Hr2 in He2. injection He2 as <-.
  rewrite Heq, Ht2 in Ht1. by injection Ht1.
Qed.

(** [cleanupSubscription] on an entry whose client set is empty: the
    entry leaves the registry and its timer stops. *)
Lemma cleanupSubscription_empty h ip r e :
  subscriptions h !! ip = Some r -> heap h !! r = Some e -> clients e = [] ->
  cleanupSubscription ip h =
  mkState (heap h) (delete ip (subscriptions h)) (delete (timer e) (timers h))
          (pending h) (next_ref h) (next_timer h).
Proof. intros Hs Hr Hc. unfold cleanupSubscription. by rewrite Hs, Hr, Hc. Qed.

(** On an entry that still has clients, and on an address without an
    entry, it does nothing. *)
Lemma cleanupSubscription_nonempty h ip r e :
  subscriptions h !! ip = Some r -> heap h !! r = Some e -> clients e <> [] ->
  cleanupSubscription ip h = h.
Proof.
  intros Hs Hr Hc. unfold cleanupSubscription. rewrite Hs, Hr.
  by destruct (clients e).
Qed.

Lemma cleanupSubscription_absent h ip :
  subscriptions h !! ip = None -> cleanupSubscription ip h = h.
Proof. intros Hs. unfold cleanupSubscription. by rewrite Hs. Qed.

Lemma cleanupSubscription_wf h ip : wf h -> wf (cleanupSubscription ip h).
Proof.
  intros Hwf. destruct (subscriptions h !! ip) as [r|] eqn:Hs;
    [|by rewrite cleanupSubscription_absent].
  destruct (wf_entry h Hwf _ _ Hs) as (e & Hr & Htm).
  destruct (clients e) as [|c l] eqn:Hc;
    [|by rewrite (cleanupSubscription_nonempty h ip r e) by (by try rewrite Hc)].
  rewrite (cleanupSubscription_empty h ip r e) by done.
  split; simpl.
  - intros ip' r' Hs'. apply lookup_delete_Some in Hs' as [Hne Hs'].
    destruct (wf_entry h Hwf _ _ Hs') as (e' & Hr' & Htm').
    exists e'. split; [done|]. rewrite lookup_delete_ne; [done|].
    intros Heq. by destruct (wf_timer_owner h ip ip' r r' e e' Hwf Hs Hr Hs' Hr' Heq).
  - apply (wf_heap h Hwf).
  - intros t tm Ht. apply lookup_delete_Some in Ht as [Hne Ht].
    destruct (wf_timer h Hwf _ _ Ht) as (Hlt & Hs' & e' & Hr' & Hte).
    split; [done|]. split; [|by eauto].
    rewrite lookup_delete_ne; [done|]. intros Heq. rewrite <- Heq in Hs'.
    rewrite Hs in Hs'. injection Hs' as Her. rewrite <- Her, Hr in Hr'.
    injection Hr' as <-. done.
Qed.

(** *** [ensurePolling] *)

(** No entry yet: a new entry object with an empty client set and a
    running timer at the requested interval. *)
Lemma ensurePolling_new h ip iv :
  subscriptions h !! ip = None ->
  ensurePolling ip iv h =
  (next_ref h,
   mkState (<[next_ref h := mkEntry [] iv (next_timer h)]> (heap h))
           (<[ip := next_ref h]> (subscriptions h))
           (<[next_timer h := mkTimer ip (next_ref h) iv]> (timers h))
           (pending h) (S (next_ref h)) (S (next_timer h))).
Proof. intros Hs. unfold ensurePolling. by rewrite Hs. Qed.

(** A strictly shorter interval: the old timer is cleared and a new one
    runs at the shorter interval, for the same entry object. *)
Lemma ensurePolling_retune h ip iv r e :
  subscriptions h !! ip = Some r -> heap h !! r = Some e -> iv < intervalMs e ->
  ensurePolling ip iv h =
  (r,
   mkState (<[r := mkEntry (clients e) iv (next_timer h)]> (heap h))
           (subscriptions h)
           (<[next_timer h := mkTimer ip r iv]> (delete (timer e) (timers h)))
           (pending h) (next_ref h) (S (next_timer h))).
Proof.
  intros Hs Hr Hlt. unfold ensurePolling. rewrite Hs, Hr.
  by rewrite (proj2 (Z.ltb_lt _ _) Hlt).
Qed.

(** An interval that is not shorter changes nothing. *)
Lemma ensurePolling_keep h ip iv r e :
  subscriptions h !! ip = Some r -> heap h !! r = Some e -> intervalMs e <= iv ->
  ensurePolling ip iv h = (r, h).
Proof.
  intros Hs Hr Hle. unfold ensurePolling. rewrite Hs, Hr.
  by rewrite (proj2 (Z.ltb_ge _ _) Hle).
Qed.

Lemma ensurePolling_new_wf h ip iv :
  wf h -> subscriptions h !! ip = None -> wf (ensurePolling ip iv h).2.
Proof.
  intros Hwf Hs. rewrite ensurePolling_new by done. split; simpl.
  - intros ip' r'. rewrite lookup_insert_Some. intros [[<- <-]|[Hne Hs']].
    + eexists. rewrite lookup_insert_eq. split; [done|]. simpl. by rewrite lookup_insert_eq.
    + destruct (wf_entry h Hwf _ _ Hs') as (e & Hr & Ht). exists e.
      pose proof (wf_heap h Hwf _ _ Hr). pose proof (wf_timer h Hwf _ _ Ht) as [? _].
      rewrite !lookup_insert_ne by lia. done.
  - intros r e. rewrite lookup_insert_Some. intros [[<- _]|[_ Hr]]; [lia|].
    pose proof (wf_heap h Hwf _ _ Hr). lia.
  - intros t tm. rewrite lookup_insert_Some. intros [[<- <-]|[Hne Ht]]; simpl.
    + split; [lia|]. rewrite !lookup_insert_eq. eauto.
    + destruct (wf_timer h Hwf _ _ Ht) as (Hlt & Hs' & e & Hr & Hte).
      split; [lia|]. pose proof (wf_heap h Hwf _ _ Hr).
      rewrite !lookup_insert_ne; [eauto| lia |congruence].
Qed.

Lemma ensurePolling_retune_wf h ip iv r e :
  wf h -> subscriptions h !! ip = Some r -> heap h !! r = Some e ->
  iv < intervalMs e -> wf (ensurePolling ip iv h).2.
Proof.
  intros Hwf Hs Hr Hlt. rewrite (ensurePolling_retune h ip iv r e) by done.
  pose proof (wf_entry h Hwf _ _ Hs) as (e0 & Hr0 & Hte).
  rewrite Hr in Hr0. injection Hr0 as <-.
  pose proof (wf_timer h Hwf _ _ Hte) as [Htlt _].
  split; simpl.
  - intros ip' r' Hs'. destruct (decide (r' = r)) as [->|Hne].
    + assert (ip' = ip) as -> by eauto using wf_inj.
      eexists. rewrite lookup_insert_eq. split; [done|]. simpl. by rewrite lookup_insert_eq.
    + destruct (wf_entry h Hwf _ _ Hs') as (e' & Hr' & Ht'). exists e'.
      rewrite lookup_insert_ne by done. split; [done|].
      pose proof (wf_timer h Hwf _ _ Ht') as [? _].
      rewrite lookup_insert_ne by lia. rewrite lookup_delete_ne; [done|].
      intros Heq. destruct (wf_timer_owner h ip ip' r r' e e' Hwf Hs Hr Hs' Hr' Heq).
      congruence.
  - intros r' e'. rewrite lookup_insert_Some. intros [[<- _]|[_ Hr']].
    + apply (wf_heap h Hwf _ _ Hr).
    + apply (wf_heap h Hwf _ _ Hr').
  - intros t tm. rewrite lookup_insert_Some. intros [[<- <-]|[Hne Ht]]; simpl.
    + split; [lia|]. split; [done|]. rewrite lookup_insert_eq. eauto.
    + apply lookup_delete_Some in Ht as [Hnt Ht].
      destruct (wf_timer h Hwf _ _ Ht) as (Hlt' & Hs' & e' & Hr' & Hte').
      split; [lia|]. split; [done|].
      rewrite lookup_insert_ne; [eauto|]. intros Heq. rewrite <- Heq, Hr in Hr'.
      injection Hr' as <-. congruence.
Qed.

Lemma ensurePolling_wf h ip iv : wf h -> wf (ensurePolling ip iv h).2.
Proof.
  intros Hwf. destruct (subscriptions h !! ip) as [r|] eqn:Hs;
    [|by apply ensurePolling_new_wf].
  destruct (wf_entry h Hwf _ _ Hs) as (e & Hr & _).
  destruct (Z.lt_ge_cases iv (intervalMs e)).
  - by eapply ensurePolling_retune_wf.
  - by rewrite (ensurePolling_keep h ip iv r e).
Qed.

(** The entry returned is the registered one. *)
Lemma ensurePolling_registered h ip iv :
  wf h ->
  subscriptions (ensurePolling ip iv h).2 !! ip = Some (ensurePolling ip iv h).1.
Proof.
  intros Hwf. destruct (subscriptions h !! ip) as [r|] eqn:Hs.
  - destruct (wf_entry h Hwf _ _ Hs) as (e & Hr & _).
    destruct (Z.lt_ge_cases iv (intervalMs e)).
    + by rewrite (ensurePolling_retune h ip iv r e).
    + by rewrite (ensurePolling_keep h ip iv r e).
  - rewrite ensurePolling_new by done. simpl. by rewrite lookup_insert_eq.
Qed.

(** Other addresses keep their registration, and their entry objects are
    left alone. *)
Lemma ensurePolling_other h ip iv ip' :
  wf h -> ip' <> ip ->
  subscriptions (ensurePolling ip iv h).2 !! ip' = subscriptions h !! ip' /\
  forall r', subscriptions h !! ip' = Some r' ->
             heap (ensurePolling ip iv h).2 !! r' = heap h !! r'.
Proof.
  intros Hwf Hne. destruct (subscriptions h !! ip) as [r|] eqn:Hs.
  - destruct (wf_entry h Hwf _ _ Hs) as (e & Hr & _).
    destruct (Z.lt_ge_cases iv (intervalMs e)).
    + rewrite (ensurePolling_retune h ip iv r e) by done. simpl. split; [done|].
      intros r' Hs'. rewrite lookup_insert_ne; [done|].
      intros <-. apply Hne. eauto using wf_inj.
    + by rewrite (ensurePolling_keep h ip iv r e).
  - rewrite ensurePolling_new by done. simpl. split; [by rewrite lookup_insert_ne|].
    intros r' Hs'. destruct (wf_entry h Hwf _ _ Hs') as (e' & Hr' & _).
    pose proof (wf_heap h Hwf _ _ Hr'). rewrite lookup_insert_ne; [done|lia].
Qed.

(** *** The loop of the close handler *)

(** One turn of the loop on a registered entry: the socket leaves the
    client set; if the set is then empty the entry is unregistered and
    its timer cleared. *)
Lemma close_one_registered h ws ip r e :
  subscriptions h !! ip = Some r -> heap h !! r = Some e ->
  close_one ws h (ip, r) =
  let e' := mkEntry (set_delete ws (clients e)) (intervalMs e) (timer e) in
  if decide (set_delete ws (clients e) = [])
  then mkState (<[r := e']> (heap h)) (delete ip (subscriptions h))
               (delete (timer e) (timers h)) (pending h) (next_ref h) (next_timer h)
  else mkState (<[r := e']> (heap h)) (subscriptions h) (timers h)
               (pending h) (next_ref h) (next_timer h).
Proof.
  intros Hs Hr. unfold close_one, clients_delete. cbn [fst snd].
  rewrite (alter_alt_Some _ _ _ _ Hr). cbn zeta.
  set (e' := mkEntry _ _ _).
  set (h1 := set_heap _ h).
  assert (subscriptions h1 !! ip = Some r) as Hs1 by done.
  assert (heap h1 !! r = Some e') as Hr1 by (unfold h1; simpl; by rewrite lookup_insert_eq).
  case_decide as Hc.
  - by rewrite (cleanupSubscription_empty h1 ip r e').
  - by rewrite (cleanupSubscription_nonempty h1 ip r e').
Qed.

Lemma close_one_wf h ws kv : wf h -> wf (close_one ws h kv).
Proof. intros Hwf. by apply cleanupSubscription_wf, clients_delete_wf. Qed.

Lemma close_loop ws (l : list (string * nat)) :
  forall h,
    wf h -> NoDup l.*1 ->
    (forall ip r, (ip, r) ∈ l -> subscriptions h !! ip = Some r) ->
    wf (foldl (close_one ws) h l) /\
    (forall ip, ip ∉ l.*1 ->
       subscriptions (foldl (close_one ws) h l) !! ip = subscriptions h !! ip) /\
    (forall r, r ∉ l.*2 -> heap (foldl (close_one ws) h l) !! r = heap h !! r) /\
    (forall t, (forall ip r e, (ip, r) ∈ l -> heap h !! r = Some e -> timer e <> t) ->
       timers (foldl (close_one ws) h l) !! t = timers h !! t) /\
    (forall ip r e, (ip, r) ∈ l -> heap h !! r = Some e ->
       heap (foldl (close_one ws) h l) !! r =
         Some (mkEntry (set_delete ws (clients e)) (intervalMs e) (timer e)) /\
       if decide (set_delete ws (clients e) = [])
       then subscriptions (foldl (close_one ws) h l) !! ip = None /\
            timers (foldl (close_one ws) h l) !! timer e = None
       else subscriptions (foldl (close_one ws) h l) !! ip = Some r /\
            timers (foldl (close_one ws) h l) !! timer e = timers h !! timer e).
Proof.
  induction l as [|[ip0 r0] l IH]; intros h Hwf Hnd Hreg.
  { simpl. do 4 (split; [done|]). intros ip r e Hin. by apply elem_of_nil in Hin. }
  cbn [foldl]. rewrite fmap_cons in Hnd. apply NoDup_cons in Hnd as [Hnin Hnd].
  assert (subscriptions h !! ip0 = Some r0) as Hs0 by (apply Hreg; left).
  destruct (wf_entry h Hwf _ _ Hs0) as (e0 & Hr0 & Ht0).
  assert (forall ip r, (ip, r) ∈ l -> ip <> ip0 /\ r <> r0 /\ subscriptions h !! ip = Some r)
    as Hrest.
  { intros ip r Hin. assert (ip <> ip0) as Hne.
    { intros ->. apply Hnin. apply list_elem_of_fmap. by exists (ip0, r). }
    assert (subscriptions h !! ip = Some r) as Hs by (apply Hreg; by right).
    repeat split; [done| |done]. intros ->. apply Hne. eauto using wf_inj. }
  assert (r0 ∉ l.*2) as Hr0nin.
  { intros Hin. apply list_elem_of_fmap in Hin as ([ip r] & -> & Hin).
    destruct (Hrest _ _ Hin) as (_ & Hne & _). by apply Hne. }
  pose proof (close_one_wf h ws (ip0, r0) Hwf) as Hwf1.
  pose proof (close_one_registered h ws ip0 r0 e0 Hs0 Hr0) as Heq. cbn zeta in Heq.
  set (h1 := close_one ws h (ip0, r0)) in *.
  assert (forall r, r <> r0 -> heap h1 !! r = heap h !! r) as Hheap1.
  { intros r Hne. rewrite Heq. case_decide; simpl; by rewrite lookup_insert_ne. }
  assert (forall ip, ip <> ip0 -> subscriptions h1 !! ip = subscriptions h !! ip) as Hsub1.
  { intros ip Hne. rewrite Heq. case_decide; simpl; [by rewrite lookup_delete_ne|done]. }
  assert (forall t, t <> timer e0 -> timers h1 !! t = timers h !! t) as Htim1.
  { intros t Hne. rewrite Heq. case_decide; simpl; [by rewrite lookup_delete_ne|done]. }
  assert (forall ip r e, (ip, r) ∈ l -> heap h !! r = Some e -> timer e <> timer e0) as Htne.
  { intros ip r e Hin Hr Ht. destruct (Hrest _ _ Hin) as (Hne & _ & Hs).
    apply Hne. by destruct (wf_timer_owner h ip ip0 r r0 e e0 Hwf Hs Hr Hs0 Hr0 Ht). }
  destruct (IH h1 Hwf1 Hnd) as (HW & HS & HH & HT & HE).
  { intros ip r Hin. destruct (Hrest _ _ Hin) as (Hne & _ & Hs). by rewrite Hsub1. }
  split; [done|]. split; [|split; [|split]].
  - intros ip Hn. rewrite fmap_cons in Hn. apply not_elem_of_cons in Hn as [Hne Hn].
    rewrite HS by done. by apply Hsub1.
  - intros r Hn. rewrite fmap_cons in Hn. apply not_elem_of_cons in Hn as [Hne Hn].
    rewrite HH by done. by apply Hheap1.
  - intros t Hcond. rewrite HT.
    + apply Htim1. intros ->. eapply (Hcond ip0 r0 e0); [left|done|done].
    + intros ip r e Hin Hr. destruct (Hrest _ _ Hin) as (_ & Hne & _).
      rewrite Hheap1 in Hr by done. eapply Hcond; [by right|done].
  - intros ip r e Hin Hr. apply elem_of_cons in Hin as [[= -> ->]|Hin].
    + rewrite Hr0 in Hr. injection Hr as <-.
      rewrite HH by done. rewrite HS by done.
      rewrite HT.
      2:{ intros ip r e Hin Hr. destruct (Hrest _ _ Hin) as (_ & Hne & _).
          rewrite Hheap1 in Hr by done. eauto. }
      rewrite Heq. case_decide; simpl; rewrite lookup_insert_eq;
        [by rewrite !lookup_delete_eq|done].
    + destruct (Hrest _ _ Hin) as (Hne & Hner & Hs).
      assert (heap h1 !! r = Some e) as Hr1 by (by rewrite Hheap1).
      destruct (HE _ _ _ Hin Hr1) as [HEh HEi]. split; [done|].
      case_decide; [done|]. destruct HEi as [? ->]. split; [done|].
      apply Htim1. eauto.
Qed.

(** *** Every handler keeps the registry consistent *)

Lemma wf_pending h p :
  wf h -> wf (mkState (heap h) (subscriptions h) (timers h) p (next_ref h) (next_timer h)).
Proof. by intros [? ? ?]. Qed.

Lemma subscribe_wf h ip iv ws :
  wf h -> wf (clients_add (ensurePolling ip iv h).1 ws (ensurePolling ip iv h).2).
Proof. intros Hwf. by apply clients_add_wf, ensurePolling_wf. Qed.

Lemma on_close_wf h ws : wf h -> wf (on_close ws h).
Proof.
  intros Hwf. unfold on_close. generalize (map_to_list (subscriptions h)).
  intros l. revert h Hwf. induction l as [|kv l IH]; intros h Hwf; [done|].
  simpl. by apply IH, close_one_wf.
Qed.

Lemma step_wf h ev : wf h -> wf (step h ev).1.
Proof.
  intros Hwf. destruct ev as [ws q|ws m|ws|t|k data tr]; simpl.
  - unfold on_connection. destruct q as [[[[|c s]|] iv]|]; try done.
    destruct (ensurePolling _ _ h) as [r h1] eqn:E. simpl.
    apply wf_pending. pose proof (subscribe_wf h (String c s) (query_interval iv) ws Hwf) as H.
    by rewrite E in H.
  - unfold on_message. destruct m as [|ty [|c s] iv]; try done.
    destruct (String.eqb ty "subscribe").
    { destruct (ensurePolling _ _ h) as [r h1] eqn:E. simpl.
      pose proof (subscribe_wf h (String c s) (message_interval iv) ws Hwf) as H.
      by rewrite E in H. }
    destruct (String.eqb ty "unsubscribe").
    { simpl. destruct (subscriptions h !! String c s); [|done].
      by apply cleanupSubscription_wf, clients_delete_wf. }
    destruct (String.eqb ty "snapshot"); [|done].
    simpl. by apply wf_pending.
  - by apply on_close_wf.
  - unfold on_tick. destruct (timers h !! t); [|done]. by apply wf_pending.
  - unfold on_settle. destruct (pending h !! k); [|done]. by apply wf_pending.
Qed.

(** *** No registered entry is empty *)

Lemma close_loop_nonempty ws (l : list (string * nat)) h :
  wf h -> NoDup l.*1 ->
  (forall ip r, (ip, r) ∈ l -> subscriptions h !! ip = Some r) ->
  entries_nonempty h ->
  entries_nonempty (foldl (close_one ws) h l).
Proof.
  intros Hwf Hnd Hreg Hne.
  destruct (close_loop ws l h Hwf Hnd Hreg) as (HW & HS & HH & HT & HE).
  intros ip r e Hs Hr.
  destruct (decide (ip ∈ l.*1)) as [Hin|Hnin].
  - apply list_elem_of_fmap in Hin as ([ip' r'] & -> & Hin). simpl in *.
    destruct (wf_entry h Hwf _ _ (Hreg _ _ Hin)) as (e0 & Hr0 & _).
    destruct (HE _ _ _ Hin Hr0) as [Hh Hi].
    case_decide as Hc; [destruct Hi; congruence|].
    destruct Hi as [Hs' _]. rewrite Hs in Hs'. injection Hs' as ->.
    rewrite Hr in Hh. by injection Hh as ->.
  - rewrite HS in Hs by done.
    assert (r ∉ l.*2) as Hrn.
    { intros Hin. apply list_elem_of_fmap in Hin as ([ip' r'] & -> & Hin). simpl in *.
      apply Hnin. apply list_elem_of_fmap. exists (ip', r'). split; [|done]. simpl.
      eauto using wf_inj. }
    rewrite HH in Hr by done. eauto.
Qed.

Lemma subscribe_nonempty h ip iv ws :
  wf h -> entries_nonempty h ->
  entries_nonempty (clients_add (ensurePolling ip iv h).1 ws (ensurePolling ip iv h).2).
Proof.
  intros Hwf Hne ip' r' e' Hs Hr. simpl in Hs, Hr.
  pose proof (ensurePolling_wf h ip iv Hwf) as Hwf1.
  pose proof (ensurePolling_registered h ip iv Hwf) as Hreg.
  destruct (decide (ip' = ip)) as [->|Hnip].
  - rewrite Hreg in Hs. injection Hs as <-.
    rewrite lookup_alter_eq in Hr.
    destruct (heap _ !! _) as [e1|]; [|done]. injection Hr as <-. simpl.
    apply set_add_nonempty.
  - destruct (ensurePolling_other h ip iv ip' Hwf Hnip) as [Hso Hho].
    rewrite lookup_alter_ne in Hr.
    + rewrite Hso in Hs. rewrite (Hho _ Hs) in Hr. eauto.
    + intros Heq. apply Hnip. rewrite <- Heq in Hs. eauto using wf_inj.
Qed.

Lemma unsubscribe_as_loop h ip r ws :
  cleanupSubscription ip (clients_delete r ws h) = foldl (close_one ws) h [(ip, r)].
Proof. reflexivity. Qed.

Lemma on_close_nonempty h ws :
  wf h -> entries_nonempty h -> entries_nonempty (on_close ws h).
Proof.
  intros Hwf Hne. apply close_loop_nonempty; [done| |..|done].
  - apply NoDup_fst_map_to_list.
  - intros ip r Hin. by apply elem_of_map_to_list in Hin.
Qed.

Lemma nonempty_pending h p :
  entries_nonempty h ->
  entries_nonempty (mkState (heap h) (subscriptions h) (timers h) p (next_ref h) (next_timer h)).
Proof. done. Qed.

Lemma step_nonempty h ev : wf h -> entries_nonempty h -> entries_nonempty (step h ev).1.
Proof.
  intros Hwf Hne. destruct ev as [ws q|ws m|ws|t|k data tr]; simpl.
  - unfold on_connection. destruct q as [[[[|c s]|] iv]|]; try done.
    destruct (ensurePolling _ _ h) as [r h1] eqn:E. simpl.
    apply nonempty_pending.
    pose proof (subscribe_nonempty h (String c s) (query_interval iv) ws Hwf Hne) as H.
    by rewrite E in H.
  - unfold on_message. destruct m as [|ty [|c s] iv]; try done.
    destruct (String.eqb ty "subscribe").
    { destruct (ensurePolling _ _ h) as [r h1] eqn:E. simpl.
      pose proof (subscribe_nonempty h (String c s) (message_interval iv) ws Hwf Hne) as H.
      by rewrite E in H. }
    destruct (String.eqb ty "unsubscribe").
    { simpl. destruct (subscriptions h !! String c s) as [r|] eqn:Hs; [|done].
      rewrite unsubscribe_as_loop. apply close_loop_nonempty; [done| | |done].
      - simpl. apply NoDup_singleton.
      - intros ip r' Hin. apply list_elem_of_singleton in Hin. by injection Hin as -> ->. }
    destruct (String.eqb ty "snapshot"); [|done].
    simpl. by apply nonempty_pending.
  - by apply on_close_nonempty.
  - unfold on_tick. destruct (timers h !! t); [|done]. by apply nonempty_pending.
  - unfold on_settle. destruct (pending h !! k); [|done]. by apply nonempty_pending.
Qed.

(** *** Only the subscribe paths register, and never the empty address *)

Lemma cleanupSubscription_heap h ip : heap (cleanupSubscription ip h) = heap h.
Proof.
  unfold cleanupSubscription. destruct (subscriptions h !! ip); [|done].
  destruct (heap h !! _) as [e|]; [|done]. by destruct (clients e).
Qed.

Lemma cleanupSubscription_unregistered h ip ip' :
  subscriptions h !! ip' = None -> subscriptions (cleanupSubscription ip h) !! ip' = None.
Proof.
  intros Hn. unfold cleanupSubscription. destruct (subscriptions h !! ip); [|done].
  destruct (heap h !! _) as [e|]; [|done]. destruct (clients e); [|done].
  simpl. rewrite lookup_delete_None. by right.
Qed.

Lemma close_loop_unregistered ws (l : list (string * nat)) h ip' :
  subscriptions h !! ip' = None ->
  subscriptions (foldl (close_one ws) h l) !! ip' = None.
Proof.
  revert h. induction l as [|kv l IH]; intros h Hn; [done|].
  simpl. apply IH. unfold close_one. by apply cleanupSubscription_unregistered.
Qed.

Lemma ensurePolling_unregistered h ip iv ip' :
  ip' <> ip -> subscriptions h !! ip' = None ->
  subscriptions (ensurePolling ip iv h).2 !! ip' = None.
Proof.
  intros Hne Hn. unfold ensurePolling.
  destruct (subscriptions h !! ip) as [r|].
  - destruct (heap h !! r) as [e|]; [|done]. by destruct (iv <? intervalMs e).
  - simpl. by rewrite lookup_insert_ne.
Qed.

Lemma step_blank h ev :
  subscriptions h !! ""%string = None -> subscriptions (step h ev).1 !! ""%string = None.
Proof.
  intros Hb. destruct ev as [ws q|ws m|ws|t|k data tr]; simpl.
  - unfold on_connection. destruct q as [[[[|c s]|] iv]|]; try done.
    pose proof (ensurePolling_unregistered h (String c s) (query_interval iv) "" ltac:(done) Hb).
    by destruct (ensurePolling _ _ h) as [r h1].
  - unfold on_message. destruct m as [|ty [|c s] iv]; try done.
    destruct (String.eqb ty "subscribe").
    { pose proof (ensurePolling_unregistered h (String c s) (message_interval iv) ""
                    ltac:(done) Hb).
      by destruct (ensurePolling _ _ h) as [r h1]. }
    destruct (String.eqb ty "unsubscribe").
    { simpl. destruct (subscriptions h !! String c s); [|done].
      by apply cleanupSubscription_unregistered. }
    by destruct (String.eqb ty "snapshot").
  - by apply close_loop_unregistered.
  - unfold on_tick. by destruct (timers h !! t).
  - unfold on_settle. by destruct (pending h !! k).
Qed.

(** *** Reachable states *)

Lemma run_snoc h evs ev : run h (evs ++ [ev]) = (step (run h evs) ev).1.
Proof. unfold run. by rewrite foldl_app. Qed.

Lemma run_reachable h evs : reachable h -> reachable (run h evs).
Proof.
  intros Hr. induction evs as [|ev evs IH] using rev_ind; [done|].
  rewrite run_snoc. by constructor.
Qed.

Lemma reachable_run h : reachable h -> exists evs, h = run init evs.
Proof.
  induction 1 as [|h ev _ [evs ->]]; [by exists []|].
  exists (evs ++ [ev]). by rewrite run_snoc.
Qed.

Lemma reachable_inv h :
  reachable h -> wf h /\ entries_nonempty h /\ subscriptions h !! ""%string = None.
Proof.
  induction 1 as [|h ev _ (Hwf & Hne & Hb)].
  - split; [apply wf_init|]. split; [|done]. intros ip r e Hs. simpl in Hs.
    by rewrite lookup_empty in Hs.
  - split; [by apply step_wf|]. split; [by apply step_nonempty|by apply step_blank].
Qed.

(** *** Entry objects keep or shorten their interval *)

Lemma close_loop_object ws (l : list (string * nat)) h r e :
  heap h !! r = Some e ->
  exists e', heap (foldl (close_one ws) h l) !! r = Some e' /\
             intervalMs e' = intervalMs e /\ timer e' = timer e.
Proof.
  revert h e. induction l as [|kv l IH]; intros h e Hr; [by exists e|].
  simpl.
  assert (exists e1, heap (close_one ws h kv) !! r = Some e1 /\
                     intervalMs e1 = intervalMs e /\ timer e1 = timer e)
    as (e1 & Hr1 & Hi1 & Ht1).
  { unfold close_one. rewrite cleanupSubscription_heap. simpl.
    destruct (decide (kv.2 = r)) as [->|Hne].
    - rewrite lookup_alter_eq, Hr. simpl. by eexists.
    - rewrite lookup_alter_ne by done. by exists e. }
  destruct (IH _ _ Hr1) as (e' & Hr' & Hi' & Ht'). exists e'. split; [done|].
  split; congruence.
Qed.

Lemma ensurePolling_object h ip iv r e :
  wf h -> heap h !! r = Some e ->
  exists e', heap (ensurePolling ip iv h).2 !! r = Some e' /\
             intervalMs e' <= intervalMs e /\ clients e' = clients e.
Proof.
  intros Hwf Hr. destruct (subscriptions h !! ip) as [r0|] eqn:Hs.
  - destruct (wf_entry h Hwf _ _ Hs) as (e0 & Hr0 & _).
    destruct (Z.lt_ge_cases iv (intervalMs e0)).
    + rewrite (ensurePolling_retune h ip iv r0 e0) by done. simpl.
      destruct (decide (r0 = r)) as [->|Hne].
      * rewrite lookup_insert_eq. eexists. split; [done|]. simpl.
        rewrite Hr in Hr0. injection Hr0 as ->. split; [lia|done].
      * rewrite lookup_insert_ne by done. exists e. split; [done|]. split; [lia|done].
    + rewrite (ensurePolling_keep h ip iv r0 e0) by done. exists e.
      split; [done|]. split; [lia|done].
  - rewrite ensurePolling_new by done. simpl.
    pose proof (wf_heap h Hwf _ _ Hr). rewrite lookup_insert_ne by lia.
    exists e. split; [done|]. split; [lia|done].
Qed.

Lemma clients_add_object h r0 ws r e :
  heap h !! r = Some e ->
  exists e', heap (clients_add r0 ws h) !! r = Some e' /\ intervalMs e' = intervalMs e.
Proof.
  intros Hr. simpl. destruct (decide (r0 = r)) as [->|Hne].
  - rewrite lookup_alter_eq, Hr. simpl. by eexists.
  - rewrite lookup_alter_ne by done. by exists e.
Qed.

Lemma subscribe_object h ip iv ws r e :
  wf h -> heap h !! r = Some e ->
  exists e', heap (clients_add (ensurePolling ip iv h).1 ws (ensurePolling ip iv h).2) !! r
             = Some e' /\ intervalMs e' <= intervalMs e.
Proof.
  intros Hwf Hr. destruct (ensurePolling_object h ip iv r e Hwf Hr) as (e1 & Hr1 & Hi1 & _).
  destruct (clients_add_object _ (ensurePolling ip iv h).1 ws r e1 Hr1) as (e2 & Hr2 & Hi2).
  exists e2. split; [done|]. lia.
Qed.

Lemma step_object h ev r e :
  wf h -> heap h !! r = Some e ->
  exists e', heap (step h ev).1 !! r = Some e' /\ intervalMs e' <= intervalMs e.
Proof.
  intros Hwf Hr.
  assert (exists e', heap h !! r = Some e' /\ intervalMs e' <= intervalMs e) as Hsame
    by (exists e; split; [done|lia]).
  destruct ev as [ws q|ws m|ws|t|k data tr]; simpl.
  - unfold on_connection. destruct q as [[[[|c s]|] iv]|]; try done.
    pose proof (subscribe_object h (String c s) (query_interval iv) ws r e Hwf Hr) as H.
    by destruct (ensurePolling _ _ h) as [r1 h1].
  - unfold on_message. destruct m as [|ty [|c s] iv]; try done.
    destruct (String.eqb ty "subscribe").
    { pose proof (subscribe_object h (String c s) (message_interval iv) ws r e Hwf Hr) as H.
      by destruct (ensurePolling _ _ h) as [r1 h1]. }
    destruct (String.eqb ty "unsubscribe").
    { simpl. destruct (subscriptions h !! String c s) as [r0|]; [|done].
      rewrite unsubscribe_as_loop.
      destruct (close_loop_object ws [(String c s, r0)] h r e Hr) as (e' & Hr' & Hi' & _).
      exists e'. split; [done|lia]. }
    by destruct (String.eqb ty "snapshot").
  - destruct (close_loop_object ws (map_to_list (subscriptions h)) h r e Hr)
      as (e' & Hr' & Hi' & _).
    exists e'. split; [done|lia].
  - unfold on_tick. by destruct (timers h !! t).
  - unfold on_settle. by destruct (pending h !! k).
Qed.

Lemma run_object evs : forall h r e,
  reachable h -> heap h !! r = Some e ->
  exists e', heap (run h evs) !! r = Some e' /\ intervalMs e' <= intervalMs e.
Proof.
  induction evs as [|ev evs IH]; intros h r e Hreach Hr.
  - exists e. split; [done|lia].
  - destruct (reachable_inv h Hreach) as (Hwf & _).
    destruct (step_object h ev r e Hwf Hr) as (e1 & Hr1 & Hi1).
    destruct (IH (step h ev).1 r e1 (reachable_step h ev Hreach) Hr1) as (e' & Hr' & Hi').
    exists e'. split; [done|lia].
Qed.

(** *** The claims about the registry *)

Lemma set_heap_id h : set_heap (heap h) h = h.
Proof. by destruct h. Qed.

Lemma clients_delete_absent h r ws :
  ws ∉ entry_clients r h -> clients_delete r ws h = h.
Proof.
  intros Hn. unfold clients_delete.
  rewrite alter_id; [apply set_heap_id|].
  intros e He. unfold entry_clients in Hn. rewrite He in Hn.
  rewrite set_delete_absent by done. by destruct e.
Qed.

Lemma subscribers_entry h ip r e :
  subscriptions h !! ip = Some r -> heap h !! r = Some e -> subscribers h ip = clients e.
Proof. intros Hs Hr. unfold subscribers, entry_of. rewrite Hs. simpl. by rewrite Hr. Qed.

Lemma subscribers_unregistered h ip :
  subscriptions h !! ip = None -> subscribers h ip = [].
Proof. intros Hs. unfold subscribers, entry_of. by rewrite Hs. Qed.

Lemma unsubscribe_step h ws c s j :
  step h (Message ws (Parsed "unsubscribe" (String c s) j)) =
  (match subscriptions h !! String c s with
   | Some r => foldl (close_one ws) h [(String c s, r)]
   | None => h
   end, [Sent ws (MsgUnsubscribed (String c s))]).
Proof. reflexivity. Qed.

Lemma singleton_registered h ip r :
  subscriptions h !! ip = Some r ->
  NoDup [(ip, r)].*1 /\
  forall ip' r', (ip', r') ∈ [(ip, r)] -> subscriptions h !! ip' = Some r'.
Proof.
  intros Hs. split; [apply NoDup_singleton|].
  intros ip' r' Hin. apply list_elem_of_singleton in Hin. by injection Hin as -> ->.
Qed.

(** C6: in every state the hub can reach, a device has an entry exactly
    when its subscriber set is not empty.  Unsubscribing the only
    subscriber of a device removes the entry and clears its timer, which
    was running.  Unsubscribing a connection that is not subscribed to
    the device, or from a device without an entry, leaves the hub as it
    is and is answered with [unsubscribed]. *)
Theorem entry_exists_iff_subscribed (evs : list Event) :
  let h := run init evs in
  (forall ip, is_Some (subscriptions h !! ip) <-> subscribers h ip <> []) /\
  (forall ip ws j e,
      ip <> ""%string -> entry_of h ip = Some e -> clients e = [ws] ->
      let h' := (step h (Message ws (Parsed "unsubscribe" ip j))).1 in
      is_Some (timers h !! timer e) /\
      subscriptions h' !! ip = None /\ subscribers h' ip = [] /\
      timers h' !! timer e = None) /\
  (forall ip ws j,
      ip <> ""%string -> ws ∉ subscribers h ip ->
      step h (Message ws (Parsed "unsubscribe" ip j)) =
      (h, [Sent ws (MsgUnsubscribed ip)])).
Proof.
  intros h.
  destruct (reachable_inv h (run_reachable init evs reachable_init)) as (Hwf & Hne & Hb).
  split; [|split].
  - intros ip. split.
    + intros [r Hs]. destruct (wf_entry h Hwf _ _ Hs) as (e & Hr & _).
      rewrite (subscribers_entry h ip r e) by done. eauto.
    + intros Hsub. destruct (subscriptions h !! ip) eqn:Hs; [by eexists|].
      by rewrite subscribers_unregistered in Hsub.
  - intros ip ws j e Hip He Hc h'. subst h'.
    destruct ip as [|c s]; [done|]. rewrite unsubscribe_step. cbn [fst].
    unfold entry_of in He. destruct (subscriptions h !! String c s) as [r|] eqn:Hs; [|done].
    simpl in He.
    destruct (wf_entry h Hwf _ _ Hs) as (e' & Hr & Ht).
    rewrite Hr in He. injection He as ->.
    destruct (singleton_registered h _ _ Hs) as [Hnd Hreg].
    destruct (close_loop ws [(String c s, r)] h Hwf Hnd Hreg) as (_ & _ & _ & _ & HE).
    destruct (HE (String c s) r e) as [_ Hi]; [by left|done|].
    assert (set_delete ws (clients e) = []) as Hempty.
    { rewrite Hc. unfold set_delete. by rewrite filter_cons_False, filter_nil by (intros ?; done). }
    rewrite decide_True in Hi by done. destruct Hi as [Hs' Ht'].
    split; [by eexists|]. split; [done|]. split; [|done].
    by apply subscribers_unregistered.
  - intros ip ws j Hip Hn.
    destruct ip as [|c s]; [done|]. rewrite unsubscribe_step.
    destruct (subscriptions h !! String c s) as [r|] eqn:Hs; [|done].
    destruct (wf_entry h Hwf _ _ Hs) as (e & Hr & _).
    rewrite (subscribers_entry h _ r e) in Hn by done.
    simpl. unfold close_one. cbn [fst snd].
    rewrite clients_delete_absent by (unfold entry_clients; by rewrite Hr).
    rewrite (cleanupSubscription_nonempty h _ r e); eauto.
Qed.


Lemma subscribe_step h ws c s j :
  step h (Message ws (Parsed "subscribe" (String c s) j)) =
  (clients_add (ensurePolling (String c s) (message_interval j) h).1 ws
               (ensurePolling (String c s) (message_interval j) h).2,
   [Sent ws (MsgSubscribed (String c s)
               (entry_interval (ensurePolling (String c s) (message_interval j) h).1
                  (clients_add (ensurePolling (String c s) (message_interval j) h).1 ws
                               (ensurePolling (String c s) (message_interval j) h).2)))]).
Proof.
  cbn [step]. unfold on_message. cbn [String.eqb Ascii.eqb Bool.eqb].
  by destruct (ensurePolling _ _ h).
Qed.

(** C5: take the entry of a device in a state the hub can reach.
    [ensurePolling] with a strictly shorter interval clears the entry's
    timer, sets the entry to that interval and starts a timer at it;
    with an equal or longer interval it changes nothing.  So a subscribe
    message, whose interval is first raised to at least 500 ms, retunes
    the entry when that interval is strictly shorter and leaves it as it
    is otherwise, and its reply reports the entry's interval.
    Unsubscribing or closing any connection leaves the interval of the
    entry object as it is.  Whatever happens later, the interval of the
    entry object never exceeds what it is now. *)
Theorem interval_only_tightens (evs : list Event) (ip : string) (r : nat) (e : Entry) :
  let h := run init evs in
  subscriptions h !! ip = Some r -> heap h !! r = Some e ->
  (forall iv,
      (iv < intervalMs e ->
       exists t,
         (ensurePolling ip iv h).1 = r /\
         heap (ensurePolling ip iv h).2 !! r = Some (mkEntry (clients e) iv t) /\
         timers (ensurePolling ip iv h).2 !! t = Some (mkTimer ip r iv) /\
         timers (ensurePolling ip iv h).2 !! timer e = None) /\
      (intervalMs e <= iv -> ensurePolling ip iv h = (r, h))) /\
  (forall ws j,
      let res := step h (Message ws (Parsed "subscribe" ip j)) in
      exists e',
        subscriptions res.1 !! ip = Some r /\ heap res.1 !! r = Some e' /\
        (message_interval j < intervalMs e -> intervalMs e' = message_interval j) /\
        (intervalMs e <= message_interval j -> intervalMs e' = intervalMs e) /\
        timers res.1 !! timer e' = Some (mkTimer ip r (intervalMs e')) /\
        res.2 = [Sent ws (MsgSubscribed ip (intervalMs e'))]) /\
  (forall ws j,
      exists e', heap (step h (Message ws (Parsed "unsubscribe" ip j))).1 !! r = Some e' /\
                 intervalMs e' = intervalMs e) /\
  (forall ws,
      exists e', heap (step h (Close ws)).1 !! r = Some e' /\
                 intervalMs e' = intervalMs e) /\
  (forall evs',
      exists e', heap (run h evs') !! r = Some e' /\ intervalMs e' <= intervalMs e).
Proof.
  intros h Hs Hr.
  pose proof (run_reachable init evs reachable_init) as Hreach. fold h in Hreach.
  destruct (reachable_inv h Hreach) as (Hwf & Hne & Hb).
  destruct ip as [|c s]; [congruence|].
  split; [|split; [|split; [|split]]].
  - intros iv. split.
    + intros Hlt. exists (next_timer h).
      rewrite (ensurePolling_retune h _ iv r e) by done. cbn [fst snd heap timers].
      rewrite !lookup_insert_eq. do 3 (split; [done|]).
      destruct (wf_entry h Hwf _ _ Hs) as (e0 & Hr0 & Ht0).
      rewrite Hr in Hr0. injection Hr0 as <-.
      destruct (wf_timer h Hwf _ _ Ht0) as [Hfresh _].
      rewrite lookup_insert_ne by lia. apply lookup_delete_eq.
    + intros Hle. by apply (ensurePolling_keep h _ iv r e).
  - intros ws j res. subst res. rewrite subscribe_step. cbn [fst snd].
    set (iv := message_interval j).
    pose proof (subscribe_wf h (String c s) iv ws Hwf) as Hwf'.
    pose proof (ensurePolling_registered h (String c s) iv Hwf) as Hreg.
    assert ((ensurePolling (String c s) iv h).1 = r) as Hr1.
    { destruct (Z.lt_ge_cases iv (intervalMs e)).
      - by rewrite (ensurePolling_retune h _ iv r e).
      - by rewrite (ensurePolling_keep h _ iv r e). }
    rewrite Hr1 in *.
    destruct (wf_entry _ Hwf' (String c s) r) as (e' & Hr' & Ht'); [done|].
    exists e'. split; [done|]. split; [done|].
    assert (intervalMs e' = Z.min (intervalMs e) iv) as Hmin.
    { simpl in Hr'. rewrite lookup_alter_eq in Hr'.
      destruct (Z.lt_ge_cases iv (intervalMs e)).
      - rewrite (ensurePolling_retune h _ iv r e) in Hr' by done. simpl in Hr'.
        rewrite lookup_insert_eq in Hr'. injection Hr' as <-. simpl. lia.
      - rewrite (ensurePolling_keep h _ iv r e) in Hr' by done. simpl in Hr'.
        rewrite Hr in Hr'. injection Hr' as <-. simpl. lia. }
    split; [lia|]. split; [lia|]. split; [done|].
    unfold entry_interval. by rewrite Hr'.
  - intros ws j. rewrite unsubscribe_step. cbn [fst]. rewrite Hs.
    destruct (close_loop_object ws [(String c s, r)] h r e Hr) as (e' & ? & ? & _). eauto.
  - intros ws. cbn [step fst]. unfold on_close.
    destruct (close_loop_object ws (map_to_list (subscriptions h)) h r e Hr)
      as (e' & ? & ? & _). eauto.
  - intros evs'. by apply run_object.
Qed.

(** *** Poll ticks *)

Lemma in_flight_add h p ip :
  in_flight (add_pending p h) ip =
  (in_flight h ip + if decide (pending_ip p = ip) then 1 else 0)%nat.
Proof.
  unfold in_flight, add_pending. simpl. rewrite filter_app, length_app.
  f_equal. rewrite filter_cons, filter_nil. by case_decide.
Qed.

Lemma tick_running h t tm :
  timers h !! t = Some tm ->
  (step h (Tick t)).1 = add_pending (PollTick (t_ip tm) (t_entry tm)) h.
Proof. intros Ht. cbn [step fst]. unfold on_tick. by rewrite Ht. Qed.

Lemma ticks_in_flight n : forall h t tm,
  timers h !! t = Some tm ->
  in_flight (run h (replicate n (Tick t))) (t_ip tm) = (in_flight h (t_ip tm) + n)%nat.
Proof.
  induction n as [|n IH]; intros h t tm Ht; [simpl; lia|].
  cbn [replicate]. unfold run. cbn [foldl]. fold (run (step h (Tick t)).1 (replicate n (Tick t))).
  rewrite (IH _ t tm) by (by rewrite (tick_running h t tm)).
  rewrite (tick_running h t tm) by done. rewrite in_flight_add. simpl.
  rewrite decide_True by done. lia.
Qed.

(** C1 (as the code has it): no tick is skipped.  Every tick of a running
    timer starts one more assembly for the timer's device, whether or not
    earlier ones are outstanding, so [n] ticks without a completion in
    between raise the number of assemblies in flight for the device by
    [n]. *)
Theorem tick_starts_assembly_regardless (evs : list Event) (t : nat) (tm : Timer) (n : nat) :
  let h := run init evs in
  timers h !! t = Some tm ->
  pending (step h (Tick t)).1 = pending h ++ [PollTick (t_ip tm) (t_entry tm)] /\
  in_flight (step h (Tick t)).1 (t_ip tm) = S (in_flight h (t_ip tm)) /\
  in_flight (run h (replicate n (Tick t))) (t_ip tm) = (in_flight h (t_ip tm) + n)%nat.
Proof.
  intros h Ht. split; [|split].
  - by rewrite (tick_running h t tm).
  - rewrite (tick_running h t tm), in_flight_add by done. simpl.
    rewrite decide_True by done. lia.
  - by apply ticks_in_flight.
Qed.

(** *** Delivery *)




End HubFacts.

(** ** The hub on sample traffic *)

Section HubExamples.
Import JS Assembler Hub Samples.

(** Connection 1 subscribes at 5000 ms, connection 2 at 2000 ms: the
    entry runs at 2000 ms, and still does after connection 2 has left. *)
Example interval_arbitration :
  let h := run init [Message 1 (subscribe printer 5000); Message 2 (subscribe printer 2000)] in
  (intervalMs <$> entry_of h printer) = Some 2000 /\
  (intervalMs <$> entry_of (run h [Message 2 (unsubscribe printer)]) printer) = Some 2000 /\
  (intervalMs <$> entry_of (run h [Close 2]) printer) = Some 2000 /\
  (clients <$> entry_of (run h [Close 2]) printer) = Some [1%nat].
Proof. repeat split; vm_compute; reflexivity. Qed.

Lemma interval_only_tightens_witness :
  let h := run init [Message 1 (subscribe printer 5000)] in
  exists e',
    subscriptions (step h (Message 2 (subscribe printer 2000))).1 !! printer = Some 0%nat /\
    heap (step h (Message 2 (subscribe printer 2000))).1 !! 0%nat = Some e' /\
    intervalMs e' = 2000.
Proof.
  intros h.
  destruct (interval_only_tightens [Message 1 (subscribe printer 5000)] printer 0
              (mkEntry [1%nat] 5000 0) eq_refl eq_refl) as (_ & Hsub & _).
  destruct (Hsub 2%nat (Routes.JNum 2000)) as (e' & Hs & Hr & Hlt & _).
  exists e'. split; [exact Hs|]. split; [exact Hr|].
  apply Hlt. reflexivity.
Defined.

(** Two ticks before the first assembly has returned: two assemblies of
    the same printer are in flight. *)
Lemma two_assemblies_in_flight : ~ single_flight.
Proof.
  intros Hsf.
  pose proof (Hsf (run init [Message 1 (subscribe printer 1000); Tick 0; Tick 0]) printer
                  (run_reachable init _ reachable_init)) as H.
  vm_compute in H. lia.
Qed.

Lemma tick_starts_assembly_regardless_witness :
  let h := run init [Message 1 (subscribe printer 1000)] in
  pending (step h (Tick 0)).1 = pending h ++ [PollTick printer 0] /\
  in_flight (step h (Tick 0)).1 printer = S (in_flight h printer) /\
  in_flight (run h (replicate 3 (Tick 0))) printer = (in_flight h printer + 3)%nat.
Proof.
  intros h.
  exact (tick_starts_assembly_regardless [Message 1 (subscribe printer 1000)] 0
           (mkTimer printer 0 1000) 3 eq_refl).
Defined.



(** A send that throws ends the loop: the subscribers after it get no
    snapshot, and the error message goes to those before it. *)
Example throwing_send_stops_delivery :
  let h := run init [Message 1 (subscribe printer 1000);
                     Message 2 (subscribe printer 1000);
                     Message 3 (subscribe printer 1000); Tick 0] in
  (on_settle 0 ok_snapshot second_throws h).2 =
  [Sent 1 (MsgSnapshot printer ok_snapshot);
   Sent 1 (MsgError (Some printer) "socket broken");
   UnhandledRejection "socket broken"].
Proof. vm_compute. reflexivity. Qed.

(** Closing a connection that is subscribed to two printers, alone on
    one of them. *)
Example close_two_printers :
  let h := run init [Message 1 (subscribe "10.0.0.5" 5000);
                     Message 2 (subscribe "10.0.0.5" 2000);
                     Message 2 (subscribe "10.0.0.6" 1000)] in
  let h' := (step h (Close 2)).1 in
  subscribers h "10.0.0.5" = [1; 2]%nat /\ subscribers h "10.0.0.6" = [2%nat] /\
  subscribers h' "10.0.0.5" = [1%nat] /\ subscriptions h' !! "10.0.0.6"%string = None /\
  map_to_list (timers h') = [(1%nat, mkTimer "10.0.0.5" 0 2000)].
Proof. repeat split; vm_compute; reflexivity. Qed.

Lemma entry_exists_iff_subscribed_witness :
  let h := run init [Message 1 (subscribe printer 2000)] in
  subscriptions (step h (Message 1 (unsubscribe printer))).1 !! printer = None /\
  step h (Message 2 (unsubscribe printer)) = (h, [Sent 2 (MsgUnsubscribed printer)]).
Proof.
  intros h.
  destruct (entry_exists_iff_subscribed [Message 1 (subscribe printer 2000)])
    as (_ & Hlast & Hidem).
  split.
  - refine (proj1 (proj2 (Hlast printer 1%nat Routes.JUndefined (mkEntry [1%nat] 2000 0)
                            _ eq_refl eq_refl))).
    discriminate.
  - apply Hidem; [discriminate|].
    change (2%nat ∉ [1%nat]). intros Hin. apply list_elem_of_singleton in Hin.
    discriminate Hin.
Defined.

End HubExamples.

(** ** The request handlers *)

Section HandlerFacts.
Import JS Transaction Assembler Routes Handlers.

Variable str_match : string -> string -> option (list string).
Variable network : list Call -> Call -> list SocketEvent.
Variable clock : list Call -> string.

(** An unlock followed by one line, as every handler is written. *)
Lemma unlock_then_line_rejected {B} ip line (k : Settled -> Async B) (failed : string -> B)
    log e :
  outcome ip PROTOCOL_MESSAGES.CONTROL (network log (ip, PROTOCOL_MESSAGES.CONTROL))
    = Some (Rejected e) ->
  bind (sendAndReceive network ip PROTOCOL_MESSAGES.CONTROL)
       (fun r => match r with
                 | Rejected e => ret (failed e)
                 | Resolved _ => bind (sendAndReceive network ip line) k
                 end) log
  = (Returned (failed e), log ++ [(ip, PROTOCOL_MESSAGES.CONTROL)]).
Proof. intros H. by rewrite (bind_settled _ _ _ _ _ _ H). Qed.

Lemma unlock_then_line_settled {B} ip line (k : Settled -> Async B) (failed : string -> B)
    log u r :
  outcome ip PROTOCOL_MESSAGES.CONTROL (network log (ip, PROTOCOL_MESSAGES.CONTROL))
    = Some (Resolved u) ->
  outcome ip line (network (log ++ [(ip, PROTOCOL_MESSAGES.CONTROL)]) (ip, line)) = Some r ->
  bind (sendAndReceive network ip PROTOCOL_MESSAGES.CONTROL)
       (fun r => match r with
                 | Rejected e => ret (failed e)
                 | Resolved _ => bind (sendAndReceive network ip line) k
                 end) log
  = k r (log ++ [(ip, PROTOCOL_MESSAGES.CONTROL); (ip, line)]).
Proof.
  intros H0 H1. rewrite (bind_settled _ _ _ _ _ _ H0). cbn beta iota.
  rewrite (bind_settled _ _ _ _ _ _ H1). by rewrite <- app_assoc.
Qed.

Lemma route_cases (P : Route -> Prop) body :
  P (mkRoute "GET /:ip/info" (get_info str_match network) PROTOCOL_MESSAGES.INFO
             (parse_info str_match)) ->
  P (mkRoute "GET /:ip/head-location" (get_head_location str_match network)
             PROTOCOL_MESSAGES.HEAD_POSITION (parse_head str_match)) ->
  P (mkRoute "GET /:ip/temp" (get_temp str_match network) PROTOCOL_MESSAGES.TEMP
             (parse_temperatures str_match)) ->
  P (mkRoute "GET /:ip/progress" (get_progress str_match network) PROTOCOL_MESSAGES.PROGRESS
             (progress_body str_match)) ->
  P (mkRoute "GET /:ip/status" (get_status str_match network) PROTOCOL_MESSAGES.STATUS
             (parse_status str_match)) ->
  P (mkRoute "POST /:ip/led" (fun ip => post_led network ip body) (led_command body)
             success_body) ->
  (forall name line, P (mkRoute name (post_fixed network line) line success_body)) ->
  forall rt, rt ∈ routes str_match network body -> P rt.
Proof.
  intros Hinfo Hhead Htemp Hprog Hstat Hled Hfixed rt Hin. unfold routes in Hin.
  repeat (apply elem_of_cons in Hin as [->|Hin]; [try done; by apply Hfixed|]).
  by apply elem_of_nil in Hin.
Qed.

(** Every handler gives up when the unlock fails: it answers 500 with
    the failure's message and has sent nothing but the unlock line.
    ([fetchSnapshot], on the same failure, goes on with its five
    queries.) *)
Theorem handlers_stop_when_unlock_fails body rt ip log e :
  rt ∈ routes str_match network body ->
  outcome ip PROTOCOL_MESSAGES.CONTROL (network log (ip, PROTOCOL_MESSAGES.CONTROL))
    = Some (Rejected e) ->
  route_handler rt ip log = (Returned (Json500 e), log ++ [(ip, PROTOCOL_MESSAGES.CONTROL)]).
Proof.
  intros Hin Hc. revert rt Hin.
  apply route_cases; intros; cbn [route_handler];
    by apply (unlock_then_line_rejected ip _ _ Json500).
Qed.

(** Once the unlock is answered, every handler sends exactly one more
    line, the one of its route, and answers from how that line settles:
    200 with the route's body of the reply, or 500 with the failure's
    message.  The command routes answer [{ success: true, response }]
    with the reply trimmed. *)
Theorem handlers_send_one_line_after_unlock body rt ip log u r :
  rt ∈ routes str_match network body ->
  outcome ip PROTOCOL_MESSAGES.CONTROL (network log (ip, PROTOCOL_MESSAGES.CONTROL))
    = Some (Resolved u) ->
  outcome ip (route_line rt)
          (network (log ++ [(ip, PROTOCOL_MESSAGES.CONTROL)]) (ip, route_line rt)) = Some r ->
  route_handler rt ip log =
  (Returned match r with
            | Resolved reply => Json200 (route_body rt reply)
            | Rejected e => Json500 e
            end,
   log ++ [(ip, PROTOCOL_MESSAGES.CONTROL); (ip, route_line rt)]).
Proof.
  intros Hin Hc. revert rt Hin.
  refine (route_cases
            (fun rt =>
               outcome ip (route_line rt)
                 (network (log ++ [(ip, PROTOCOL_MESSAGES.CONTROL)]) (ip, route_line rt))
               = Some r ->
               route_handler rt ip log =
               (Returned match r with
                         | Resolved reply => Json200 (route_body rt reply)
                         | Rejected e => Json500 e
                         end,
                log ++ [(ip, PROTOCOL_MESSAGES.CONTROL); (ip, route_line rt)]))
            body _ _ _ _ _ _ _);
    cbn [route_handler route_line route_body]; intros;
    match goal with
    | H : outcome _ ?line (network (_ ++ _) _) = Some _ |- _ =>
        etransitivity;
        [exact (unlock_then_line_settled ip line _ Json500 log u r Hc H)|]
    end; by destruct r.
Qed.

(** On a stateless printer a line settles the same way whenever it is
    sent. *)
Lemma stateless_step_outcome ip log k c r :
  stateless network -> steps ip !! k = Some c ->
  step_outcome network ip log k = Some r ->
  forall log', outcome c.1 c.2 (network log' c) = Some r.
Proof.
  intros Hst Hc Hr log'. unfold step_outcome in Hr. rewrite Hc in Hr.
  by rewrite (Hst log' (log ++ take k (steps ip)) c).
Qed.

(** On a stateless printer the query handlers answer with the very
    sections a snapshot has: 200 with the section when unlock and query
    are answered, and 500 where the snapshot records the step's error
    (or the unlock's) and keeps a default. *)
Theorem query_handlers_agree_with_snapshot ip log log' r0 r1 r2 r3 r4 r5 :
  stateless network ->
  step_outcome network ip log 0 = Some r0 ->
  step_outcome network ip log 1 = Some r1 ->
  step_outcome network ip log 2 = Some r2 ->
  step_outcome network ip log 3 = Some r3 ->
  step_outcome network ip log 4 = Some r4 ->
  step_outcome network ip log 5 = Some r5 ->
  exists snap,
    (fetchSnapshot str_match network clock ip log).1 = Returned snap /\
    let answer (r : Settled) (section : Obj) :=
      match r0, r with
      | Rejected e, _ => Json500 e
      | Resolved _, Rejected e => Json500 e
      | Resolved _, Resolved _ => Json200 section
      end in
    (get_info str_match network ip log').1 = Returned (answer r1 (info snap)) /\
    (get_head_location str_match network ip log').1 = Returned (answer r2 (headLocation snap)) /\
    (get_temp str_match network ip log').1 = Returned (answer r3 (temperatures snap)) /\
    (get_status str_match network ip log').1 = Returned (answer r5 (status snap)).
Proof.
  intros Hst H0 H1 H2 H3 H4 H5. eexists. split.
  { by rewrite (fetchSnapshot_settled str_match network clock ip log r0 r1 r2 r3 r4 r5). }
  cbn zeta. cbn [info headLocation temperatures status].
  pose proof (stateless_step_outcome ip log 0 _ r0 Hst eq_refl H0) as G0.
  pose proof (stateless_step_outcome ip log 1 _ r1 Hst eq_refl H1) as G1.
  pose proof (stateless_step_outcome ip log 2 _ r2 Hst eq_refl H2) as G2.
  pose proof (stateless_step_outcome ip log 3 _ r3 Hst eq_refl H3) as G3.
  pose proof (stateless_step_outcome ip log 5 _ r5 Hst eq_refl H5) as G5.
  cbn [fst snd] in G0, G1, G2, G3, G5.
  destruct r0 as [u|e].
  - unfold get_info, get_head_location, get_temp, get_status.
    rewrite (unlock_then_line_settled ip _ _ Json500 log' u r1 (G0 _) (G1 _)).
    rewrite (unlock_then_line_settled ip _ _ Json500 log' u r2 (G0 _) (G2 _)).
    rewrite (unlock_then_line_settled ip _ _ Json500 log' u r3 (G0 _) (G3 _)).
    rewrite (unlock_then_line_settled ip _ _ Json500 log' u r5 (G0 _) (G5 _)).
    by destruct r1, r2, r3, r5.
  - unfold get_info, get_head_location, get_temp, get_status.
    rewrite !(unlock_then_line_rejected ip _ _ Json500 log' e (G0 _)).
    done.
Qed.

(** On the same reply the progress handler and the snapshot agree on the
    byte counts and, unless the byte percentage is not a number, on the
    percentage.  The layer fields agree when the layers matched; when
    they did not, the handler answers [null] for them and the snapshot
    leaves them out. *)
Theorem progress_handler_agrees_with_snapshot (reply : string) :
  let body := progress_body str_match reply in
  let section := parse_progress str_match reply in
  obj_get body "BytesPrinted" = obj_get section "BytesPrinted" /\
  obj_get body "BytesTotal" = obj_get section "BytesTotal" /\
  (match str_match reply REGEX_PATTERNS.progressBytes with
   | Some b => is_nan (byte_percentage b) = false
   | None => True
   end ->
   obj_get body "PercentageCompleted" = obj_get section "PercentageCompleted") /\
  match str_match reply REGEX_PATTERNS.progressLayers with
  | Some l =>
      obj_get body "LayerCurrent" = Some (VNum (parseInt (group l 1))) /\
      obj_get section "LayerCurrent" = Some (VNum (parseInt (group l 1))) /\
      obj_get body "LayerTotal" = Some (VNum (parseInt (group l 2))) /\
      obj_get section "LayerTotal" = Some (VNum (parseInt (group l 2)))
  | None =>
      obj_get body "LayerCurrent" = Some VNull /\ obj_get section "LayerCurrent" = None /\
      obj_get body "LayerTotal" = Some VNull /\ obj_get section "LayerTotal" = None
  end.
Proof.
  intros body section. subst body section.
  unfold progress_body, parse_progress, progress_of_matches.
  destruct (str_match reply REGEX_PATTERNS.progressBytes) as [b|];
    destruct (str_match reply REGEX_PATTERNS.progressLayers) as [l|].
  - fold (byte_percentage b).
    cbn -[parseInt Math_floor num_is_zero num_truthy byte_percentage group].
    assert (is_nan (byte_percentage b) = false ->
            num_truthy (byte_percentage b) = negb (num_is_zero (byte_percentage b))) as Hz.
    { intros Hnan. unfold num_truthy. by rewrite Hnan. }
    destruct (num_is_zero (byte_percentage b)) eqn:Ezero;
      destruct (num_truthy (byte_percentage b)) eqn:Etruthy;
      destruct (num_truthy (parseInt (group l 2))) eqn:Elayers;
      cbn -[parseInt Math_floor byte_percentage group];
      (do 2 (split; [reflexivity|]); split; [|repeat split; reflexivity]);
      intros Hnan; specialize (Hz Hnan); first [discriminate Hz | reflexivity].
  - fold (byte_percentage b). repeat split; reflexivity.
  - cbn -[parseInt Math_floor num_is_zero num_truthy group].
    change (num_truthy zero) with false. change (num_is_zero zero) with true.
    cbn -[parseInt Math_floor num_truthy group].
    destruct (num_truthy (parseInt (group l 2))); repeat split; reflexivity.
  - repeat split; reflexivity.
Qed.

End HandlerFacts.

(** ** More on the snapshot assembler *)

Section AssemblerMore.
Import JS Transaction Assembler.

Variable str_match : string -> string -> option (list string).
Variable network : list Call -> Call -> list SocketEvent.
Variable clock : list Call -> string.

Lemma bind_suspended {B} ip message (k : Settled -> Async B) log :
  outcome ip message (network log (ip, message)) = None ->
  bind (sendAndReceive network ip message) k log = (Suspended, log ++ [(ip, message)]).
Proof. intros H. unfold bind, sendAndReceive. by rewrite H. Qed.

(** The error list names exactly the steps that failed, in step order:
    it is empty when, and only when, all six transactions succeeded. *)
Theorem errors_name_the_failed_steps ip log r0 r1 r2 r3 r4 r5 :
  step_outcome network ip log 0 = Some r0 ->
  step_outcome network ip log 1 = Some r1 ->
  step_outcome network ip log 2 = Some r2 ->
  step_outcome network ip log 3 = Some r3 ->
  step_outcome network ip log 4 = Some r4 ->
  step_outcome network ip log 5 = Some r5 ->
  exists snap,
    (fetchSnapshot str_match network clock ip log).1 = Returned snap /\
    step <$> errors snap =
      omap (fun '(name, r) => match r with Rejected _ => Some name | Resolved _ => None end)
           [("CONTROL", r0); ("INFO", r1); ("HEAD_POSITION", r2);
            ("TEMP", r3); ("PROGRESS", r4); ("STATUS", r5)]%string /\
    (errors snap = [] <->
     Forall (fun r => exists reply, r = Resolved reply) [r0; r1; r2; r3; r4; r5]).
Proof.
  intros H0 H1 H2 H3 H4 H5. eexists. split.
  { by rewrite (fetchSnapshot_settled str_match network clock ip log r0 r1 r2 r3 r4 r5). }
  cbn [errors]. split.
  - by destruct r0, r1, r2, r3, r4, r5.
  - split.
    + intros He. destruct r0, r1, r2, r3, r4, r5; try discriminate He.
      repeat constructor; by eexists.
    + intros Hall.
      repeat match goal with
             | H : Forall _ (_ :: _) |- _ => apply Forall_cons in H as [[? ->] H]
             end.
      reflexivity.
Qed.

(** A transaction that never settles keeps the assembly waiting: when
    the steps before step [k] have settled and step [k] does not,
    [fetchSnapshot] does not return and has sent the lines of the steps
    up to [k], and none of the later ones. *)
Theorem fetchSnapshot_waits_for_unsettled_step ip log (k : nat) :
  (k < 6)%nat ->
  (forall j, (j < k)%nat -> is_Some (step_outcome network ip log j)) ->
  step_outcome network ip log k = None ->
  fetchSnapshot str_match network clock ip log = (Suspended, log ++ take (S k) (steps ip)).
Proof.
  intros Hk Hprev Hnone.
  assert (forall j, (j < k)%nat -> exists r, step_outcome network ip log j = Some r) as Hp.
  { intros j Hj. destruct (Hprev j Hj) as [r Hr]. by exists r. }
  unfold step_outcome in Hp, Hnone. unfold fetchSnapshot.
  pose proof (fun H => Hp 0%nat H) as P0. pose proof (fun H => Hp 1%nat H) as P1.
  pose proof (fun H => Hp 2%nat H) as P2. pose proof (fun H => Hp 3%nat H) as P3.
  pose proof (fun H => Hp 4%nat H) as P4. clear Hp Hprev.
  cbn [steps lookup list_lookup take fst snd] in P0, P1, P2, P3, P4.
  rewrite app_nil_r in P0.
  destruct k as [|[|[|[|[|[|k]]]]]]; [..|lia];
    cbn [steps lookup list_lookup take fst snd] in Hnone; try rewrite app_nil_r in Hnone.
  - by rewrite (bind_suspended _ _ _ _ Hnone).
  - destruct P0 as [r0 H0]; [lia|].
    rewrite (bind_settled _ _ _ _ _ _ H0). destruct r0; cbn beta iota zeta;
      by rewrite (bind_suspended _ _ _ _ Hnone), <- app_assoc.
  - destruct P0 as [r0 H0]; [lia|]. destruct P1 as [r1 H1]; [lia|].
    rewrite (bind_settled _ _ _ _ _ _ H0). destruct r0; cbn beta iota zeta;
      rewrite (bind_settled _ _ _ _ _ _ H1), <- app_assoc; cbn [app];
      destruct r1; cbn beta iota zeta;
      by rewrite (bind_suspended _ _ _ _ Hnone), <- app_assoc.
  - destruct P0 as [r0 H0]; [lia|]. destruct P1 as [r1 H1]; [lia|].
    destruct P2 as [r2 H2]; [lia|].
    rewrite (bind_settled _ _ _ _ _ _ H0). destruct r0; cbn beta iota zeta;
      rewrite (bind_settled _ _ _ _ _ _ H1), <- app_assoc; cbn [app];
      destruct r1; cbn beta iota zeta;
      rewrite (bind_settled _ _ _ _ _ _ H2), <- app_assoc; cbn [app];
      destruct r2; cbn beta iota zeta;
      by rewrite (bind_suspended _ _ _ _ Hnone), <- app_assoc.
  - destruct P0 as [r0 H0]; [lia|]. destruct P1 as [r1 H1]; [lia|].
    destruct P2 as [r2 H2]; [lia|]. destruct P3 as [r3 H3]; [lia|].
    rewrite (bind_settled _ _ _ _ _ _ H0). destruct r0; cbn beta iota zeta;
      rewrite (bind_settled _ _ _ _ _ _ H1), <- app_assoc; cbn [app];
      destruct r1; cbn beta iota zeta;
      rewrite (bind_settled _ _ _ _ _ _ H2), <- app_assoc; cbn [app];
      destruct r2; cbn beta iota zeta;
      rewrite (bind_settled _ _ _ _ _ _ H3), <- app_assoc; cbn [app];
      destruct r3; cbn beta iota zeta;
      by rewrite (bind_suspended _ _ _ _ Hnone), <- app_assoc.
  - destruct P0 as [r0 H0]; [lia|]. destruct P1 as [r1 H1]; [lia|].
    destruct P2 as [r2 H2]; [lia|]. destruct P3 as [r3 H3]; [lia|].
    destruct P4 as [r4 H4]; [lia|].
    rewrite (bind_settled _ _ _ _ _ _ H0). destruct r0; cbn beta iota zeta;
      rewrite (bind_settled _ _ _ _ _ _ H1), <- app_assoc; cbn [app];
      destruct r1; cbn beta iota zeta;
      rewrite (bind_settled _ _ _ _ _ _ H2), <- app_assoc; cbn [app];
      destruct r2; cbn beta iota zeta;
      rewrite (bind_settled _ _ _ _ _ _ H3), <- app_assoc; cbn [app];
      destruct r3; cbn beta iota zeta;
      rewrite (bind_settled _ _ _ _ _ _ H4), <- app_assoc; cbn [app];
      destruct r4; cbn beta iota zeta;
      by rewrite (bind_suspended _ _ _ _ Hnone), <- app_assoc.
Qed.

(** The keys of an object after an assignment. *)
Lemma obj_keys_set_fresh (o : Obj) k v :
  k ∉ obj_keys o -> obj_keys (obj_set o k v) = obj_keys o ++ [k].
Proof.
  induction o as [|[k' w] o IH]; intros Hn; [done|].
  cbn [obj_keys map fst] in Hn. apply not_elem_of_cons in Hn as [Hne Hn].
  cbn [obj_set]. destruct (String.eqb k' k) eqn:E.
  - apply String.eqb_eq in E. congruence.
  - cbn [obj_keys map fst app]. f_equal. by apply IH.
Qed.

Lemma obj_set_keys_within (o : Obj) (L : list string) k v :
  obj_keys o `sublist_of` L -> k ∉ L ->
  obj_keys (obj_set o k v) `sublist_of` L ++ [k].
Proof.
  intros Hs Hn. rewrite obj_keys_set_fresh.
  - by apply sublist_app.
  - intros Hin. apply Hn. by eapply elem_of_sublist.
Qed.

Lemma set_if_match_keys_within (o : Obj) (L : list string) k m i :
  obj_keys o `sublist_of` L -> k ∉ L ->
  obj_keys (set_if_match o k m i) `sublist_of` L ++ [k].
Proof.
  intros Hs Hn. destruct m as [g|]; simpl.
  - by apply obj_set_keys_within.
  - by apply sublist_inserts_r.
Qed.

Ltac fresh_key := cbn [app]; rewrite ?elem_of_cons, ?elem_of_nil; intros H;
  repeat (destruct H as [H|H]); try discriminate H; done.

Lemma parse_head_keys reply : obj_keys (parse_head str_match reply) `sublist_of` ["X"; "Y"; "Z"]%string.
Proof.
  unfold parse_head. cbn [fold_left].
  apply (set_if_match_keys_within _ ["X";"Y"]%string "Z"); [|fresh_key].
  apply (set_if_match_keys_within _ ["X"]%string "Y"); [|fresh_key].
  apply (set_if_match_keys_within _ [] "X"); [done|fresh_key].
Qed.

Lemma parse_info_keys reply :
  obj_keys (parse_info str_match reply) `sublist_of`
    ["Type"; "Name"; "Firmware"; "SN"; "Tool Count"; "Mac Address";
     "BuildVolumeX"; "BuildVolumeY"; "BuildVolumeZ"]%string /\
  (("BuildVolumeX"%string ∈ obj_keys (parse_info str_match reply) <->
    "BuildVolumeY"%string ∈ obj_keys (parse_info str_match reply)) /\
   ("BuildVolumeY"%string ∈ obj_keys (parse_info str_match reply) <->
    "BuildVolumeZ"%string ∈ obj_keys (parse_info str_match reply))).
Proof.
  unfold parse_info, info_mappings. cbn [fold_left].
  set (o := set_if_match _ "Mac Address" _ _).
  assert (obj_keys o `sublist_of`
            ["Type"; "Name"; "Firmware"; "SN"; "Tool Count"; "Mac Address"]%string) as Ho.
  { subst o.
    apply (set_if_match_keys_within _ ["Type"; "Name"; "Firmware"; "SN"; "Tool Count"]%string);
      [|fresh_key].
    apply (set_if_match_keys_within _ ["Type"; "Name"; "Firmware"; "SN"]%string); [|fresh_key].
    apply (set_if_match_keys_within _ ["Type"; "Name"; "Firmware"]%string); [|fresh_key].
    apply (set_if_match_keys_within _ ["Type"; "Name"]%string); [|fresh_key].
    apply (set_if_match_keys_within _ ["Type"]%string); [|fresh_key].
    apply (set_if_match_keys_within _ []); [done|fresh_key]. }
  assert (forall k, k ∈ ["BuildVolumeX"; "BuildVolumeY"; "BuildVolumeZ"]%string ->
                    k ∉ obj_keys o) as Hfresh.
  { intros k Hk Hin. pose proof (elem_of_sublist _ _ _ Hin Ho) as Hin'.
    revert Hk Hin'. rewrite !elem_of_cons, !elem_of_nil. intros Hk Hin'.
    repeat (destruct Hk as [Hk|Hk]); try done; subst k;
      repeat (destruct Hin' as [Hin'|Hin']); try discriminate Hin'; done. }
  destruct (str_match reply REGEX_PATTERNS.buildVolume) as [vol|].
  - set (o1 := obj_set o "BuildVolumeX" (group_val vol 1)).
    set (o2 := obj_set o1 "BuildVolumeY" (group_val vol 2)).
    assert (obj_keys o1 = obj_keys o ++ ["BuildVolumeX"]%string) as K1.
    { apply obj_keys_set_fresh, Hfresh. set_solver. }
    assert (obj_keys o2 = obj_keys o ++ ["BuildVolumeX"; "BuildVolumeY"]%string) as K2.
    { unfold o2. rewrite obj_keys_set_fresh, K1, <- app_assoc; [done|].
      rewrite K1, elem_of_app, list_elem_of_singleton. intros [Hin|Heq]; [|done].
      revert Hin. apply Hfresh. set_solver. }
    assert (obj_keys (obj_set o2 "BuildVolumeZ" (group_val vol 3))
            = obj_keys o ++ ["BuildVolumeX"; "BuildVolumeY"; "BuildVolumeZ"]%string) as ->.
    { rewrite obj_keys_set_fresh, K2, <- app_assoc; [done|].
      rewrite K2, elem_of_app, !elem_of_cons, elem_of_nil.
      intros [Hin|[Heq|[Heq|[]]]]; [|done..].
      revert Hin. apply Hfresh. set_solver. }
    split.
    + by apply (sublist_app _ _ _ _ Ho).
    + rewrite !elem_of_app. split; split; intros _; right; set_solver.
  - split;
      [exact (sublist_inserts_r ["BuildVolumeX"; "BuildVolumeY"; "BuildVolumeZ"]%string
                _ ["Type"; "Name"; "Firmware"; "SN"; "Tool Count"; "Mac Address"]%string Ho)|].
    split; split; intros Hin; exfalso; revert Hin; apply Hfresh; set_solver.
Qed.

Lemma parse_status_keys reply :
  obj_keys (parse_status str_match reply) `sublist_of`
    ["Status"; "MachineStatus"; "MoveMode"; "Endstop"; "LED"; "CurrentFile";
     "StatusFlags"]%string.
Proof.
  unfold parse_status. cbn [fold_left].
  apply (set_if_match_keys_within _
           ["Status"; "MachineStatus"; "MoveMode"; "Endstop"; "LED"; "CurrentFile"]%string);
    [|fresh_key].
  apply (set_if_match_keys_within _
           ["Status"; "MachineStatus"; "MoveMode"; "Endstop"; "LED"]%string); [|fresh_key].
  apply (set_if_match_keys_within _ ["Status"; "MachineStatus"; "MoveMode"; "Endstop"]%string);
    [|fresh_key].
  apply (set_if_match_keys_within _ ["Status"; "MachineStatus"; "MoveMode"]%string);
    [|fresh_key].
  apply (set_if_match_keys_within _ ["Status"; "MachineStatus"]%string); [|fresh_key].
  apply (set_if_match_keys_within _ ["Status"]%string); [|fresh_key].
  apply (set_if_match_keys_within _ []); [done|fresh_key].
Qed.

Lemma parse_progress_keys reply :
  obj_keys (parse_progress str_match reply) =
    ["BytesPrinted"; "BytesTotal"; "PercentageCompleted"]%string
    ++ match str_match reply REGEX_PATTERNS.progressLayers with
       | Some _ => ["LayerCurrent"; "LayerTotal"]%string
       | None => []
       end.
Proof.
  unfold parse_progress, progress_of_matches.
  destruct (str_match reply REGEX_PATTERNS.progressBytes);
    destruct (str_match reply REGEX_PATTERNS.progressLayers);
    cbn -[parseInt Math_floor num_is_zero num_truthy group]; try reflexivity;
    match goal with
    | |- context [if ?c then _ else _] => destruct c
    end; reflexivity.
Qed.

(** Whatever the engine matches in a reply, a section holds only its
    documented keys, each at most once and in the documented order; the
    three build-volume keys come together or not at all; the progress
    section has its three byte keys and, when the layers matched, the two
    layer keys. *)
Theorem sections_hold_documented_keys (reply : string) :
  obj_keys (parse_info str_match reply) `sublist_of`
    ["Type"; "Name"; "Firmware"; "SN"; "Tool Count"; "Mac Address";
     "BuildVolumeX"; "BuildVolumeY"; "BuildVolumeZ"]%string /\
  (("BuildVolumeX"%string ∈ obj_keys (parse_info str_match reply) <->
    "BuildVolumeY"%string ∈ obj_keys (parse_info str_match reply)) /\
   ("BuildVolumeY"%string ∈ obj_keys (parse_info str_match reply) <->
    "BuildVolumeZ"%string ∈ obj_keys (parse_info str_match reply))) /\
  obj_keys (parse_head str_match reply) `sublist_of` ["X"; "Y"; "Z"]%string /\
  obj_keys (parse_status str_match reply) `sublist_of`
    ["Status"; "MachineStatus"; "MoveMode"; "Endstop"; "LED"; "CurrentFile";
     "StatusFlags"]%string /\
  obj_keys (parse_progress str_match reply) =
    ["BytesPrinted"; "BytesTotal"; "PercentageCompleted"]%string
    ++ match str_match reply REGEX_PATTERNS.progressLayers with
       | Some _ => ["LayerCurrent"; "LayerTotal"]%string
       | None => []
       end.
Proof.
  destruct (parse_info_keys reply) as [Hinfo Hvol].
  split; [done|]. split; [done|]. split; [apply parse_head_keys|].
  split; [apply parse_status_keys|apply parse_progress_keys].
Qed.

End AssemblerMore.

(** ** More on the transaction primitive *)

Section TransactionMore.
Import Transaction.

(** Once the promise has settled nothing that the socket reports later
    changes the outcome, the socket or what was written: the call
    settles once. *)
Theorem sendAndReceive_settles_once ip message evs evs' r :
  outcome ip message evs = Some r ->
  sendAndReceive_run ip message (evs ++ evs') = sendAndReceive_run ip message evs /\
  outcome ip message (evs ++ evs') = Some r.
Proof.
  intros Ho. unfold outcome, sendAndReceive_run in *. rewrite fold_left_app.
  destruct (run_outcome message evs (executor ip) eq_refl eq_refl) as [_ Hd].
  rewrite run_destroyed; [done|]. apply Hd. by eexists.
Qed.

Lemma sendAndReceive_settles_once_witness :
  sendAndReceive_run "10.0.0.5" "~M105" ([EvConnect; EvData "ok"] ++ [EvError "reset"; EvTimeout])
    = sendAndReceive_run "10.0.0.5" "~M105" [EvConnect; EvData "ok"] /\
  outcome "10.0.0.5" "~M105" ([EvConnect; EvData "ok"] ++ [EvError "reset"; EvTimeout])
    = Some (Resolved "ok").
Proof.
  exact (sendAndReceive_settles_once "10.0.0.5" "~M105" [EvConnect; EvData "ok"]
           [EvError "reset"; EvTimeout] (Resolved "ok") eq_refl).
Defined.

Lemma run_written message evs : forall c,
  exists k,
    written (fold_left (emit message) evs c) = written c ++ replicate k message /\
    (EvConnect ∉ evs -> k = 0%nat).
Proof.
  induction evs as [|ev evs IH]; intros c.
  - exists 0%nat. simpl. by rewrite app_nil_r.
  - cbn [fold_left]. destruct (IH (emit message c ev)) as (k & Hk & Hz).
    unfold emit in *. destruct (destroyed c).
    + exists k. split; [done|]. intros Hn. apply Hz. by apply not_elem_of_cons in Hn as [_ ?].
    + destruct ev; simpl in *;
        try (exists k; split;
             [ rewrite Hk; unfold on_data, on_timeout, on_error, settle; simpl;
               by destruct (promise c)
             | intros Hn; apply Hz; by apply not_elem_of_cons in Hn as [_ ?] ]).
      exists (S k). split.
      * rewrite Hk. unfold on_connect, write. simpl. by rewrite <- app_assoc.
      * intros Hn. apply not_elem_of_cons in Hn as [Hn _]. done.
Qed.

(** The only thing a call ever writes to the socket is its command line,
    and it writes nothing unless the connection is established. *)
Theorem sendAndReceive_writes_only_the_command ip message evs :
  Forall (fun line => line = message) (written (sendAndReceive_run ip message evs)) /\
  (EvConnect ∉ evs -> written (sendAndReceive_run ip message evs) = []).
Proof.
  unfold sendAndReceive_run.
  destruct (run_written message evs (executor ip)) as (k & Hk & Hz).
  rewrite Hk. simpl. split.
  - apply Forall_forall. intros x Hx. by apply elem_of_replicate in Hx as [-> _].
  - intros Hn. by rewrite (Hz Hn).
Qed.

End TransactionMore.

(** ** More on the subscription hub *)

Section HubMore.
Import JS Assembler Hub Invariants.

Implicit Types (h : State) (ip : string) (ws : nat).

(** *** Properties kept by every entry object *)

Section EntryInvariant.

Variable P : Entry -> Prop.
Hypothesis P_new : forall iv t, 500 <= iv -> P (mkEntry [] iv t).
Hypothesis P_retune : forall e iv t, P e -> 500 <= iv -> P (mkEntry (clients e) iv t).
Hypothesis P_add : forall e ws,
  P e -> P (mkEntry (set_add ws (clients e)) (intervalMs e) (timer e)).
Hypothesis P_delete : forall e ws,
  P e -> P (mkEntry (set_delete ws (clients e)) (intervalMs e) (timer e)).

Local Abbreviation all_entries := (Invariants.all_entries P).

Lemma ensurePolling_entries h ip iv :
  500 <= iv -> all_entries h -> all_entries (ensurePolling ip iv h).2.
Proof.
  intros Hiv Hall r e'. unfold ensurePolling.
  destruct (subscriptions h !! ip) as [r0|].
  - destruct (heap h !! r0) as [e0|] eqn:Hr0; [|by apply Hall].
    destruct (iv <? intervalMs e0); [|by apply Hall]. simpl.
    rewrite lookup_insert_Some. intros [[_ <-]|[_ Hr]]; [|by eapply Hall].
    apply P_retune; [by eapply Hall|done].
  - simpl. rewrite lookup_insert_Some. intros [[_ <-]|[_ Hr]]; [|by eapply Hall].
    by apply P_new.
Qed.

Lemma clients_add_entries h r0 ws : all_entries h -> all_entries (clients_add r0 ws h).
Proof.
  intros Hall r e'. simpl. rewrite lookup_alter_Some.
  intros [(_ & e & Hr & ->)|[_ Hr]]; [|by eapply Hall]. apply P_add. by eapply Hall.
Qed.

Lemma close_one_entries h ws kv : all_entries h -> all_entries (close_one ws h kv).
Proof.
  intros Hall r e'. unfold close_one. rewrite cleanupSubscription_heap. simpl.
  rewrite lookup_alter_Some.
  intros [(_ & e & Hr & ->)|[_ Hr]]; [|by eapply Hall]. apply P_delete. by eapply Hall.
Qed.

Lemma close_loop_entries ws (l : list (string * nat)) h :
  all_entries h -> all_entries (foldl (close_one ws) h l).
Proof.
  revert h. induction l as [|kv l IH]; intros h Hall; [done|].
  simpl. by apply IH, close_one_entries.
Qed.

Lemma message_interval_floor j : 500 <= message_interval j.
Proof. destruct j; simpl; lia. Qed.

Lemma query_interval_floor q : 500 <= query_interval q.
Proof. unfold query_interval. destruct (parse_int _ _) as [[? ?]|]; lia. Qed.

Lemma step_entries h ev : all_entries h -> all_entries (step h ev).1.
Proof.
  intros Hall. destruct ev as [ws q|ws m|ws|t|k data tr]; simpl.
  - unfold on_connection. destruct q as [[[[|c s]|] iv]|]; try done.
    pose proof (ensurePolling_entries h (String c s) (query_interval iv)
                  (query_interval_floor iv) Hall) as H1.
    destruct (ensurePolling _ _ h) as [r h1]. simpl in *.
    by apply (clients_add_entries h1 r ws).
  - unfold on_message. destruct m as [|ty [|c s] iv]; try done.
    destruct (String.eqb ty "subscribe").
    { pose proof (ensurePolling_entries h (String c s) (message_interval iv)
                    (message_interval_floor iv) Hall) as H1.
      destruct (ensurePolling _ _ h) as [r h1]. simpl in *.
      by apply (clients_add_entries h1 r ws). }
    destruct (String.eqb ty "unsubscribe").
    { simpl. destruct (subscriptions h !! String c s) as [r0|]; [|done].
      by apply (close_one_entries h ws (String c s, r0)). }
    by destruct (String.eqb ty "snapshot").
  - by apply close_loop_entries.
  - unfold on_tick. by destruct (timers h !! t).
  - unfold on_settle. by destruct (pending h !! k).
Qed.

Lemma run_entries evs : all_entries (run init evs).
Proof.
  induction evs as [|ev evs IH] using rev_ind.
  - intros r e Hr. simpl in Hr. by rewrite lookup_empty in Hr.
  - rewrite run_snoc. by apply step_entries.
Qed.

End EntryInvariant.

Lemma set_add_NoDup ws (l : list nat) : NoDup l -> NoDup (set_add ws l).
Proof.
  intros Hnd. unfold set_add. case_decide as Hin; [done|].
  apply NoDup_app. split; [done|]. split; [|apply NoDup_singleton].
  intros x Hx Hx'. apply list_elem_of_singleton in Hx' as ->. done.
Qed.

Lemma set_delete_NoDup ws (l : list nat) : NoDup l -> NoDup (set_delete ws l).
Proof. intros Hnd. by apply NoDup_filter. Qed.

Lemma t_period_cases (tm : Timer) :
  500 <= t_delay tm ->
  t_period tm = if t_delay tm <=? TIMEOUT_MAX then t_delay tm else 1.
Proof.
  intros Hd. unfold t_period.
  rewrite (proj2 (Z.leb_le 1 (t_delay tm))) by lia. done.
Qed.

(** The floor of 500 ms holds for the intervals of the entries and for
    the delays the timers are started with, but it does not bound the
    polling rate: a timer fires at its delay only when that is at most
    2147483647 ms and every millisecond otherwise, and one subscription
    with a longer interval, to a device without an entry, starts a
    timer that fires every millisecond. *)
Theorem interval_floor_is_not_a_rate_bound (evs : list Event) :
  let h := run init evs in
  (forall ip e, entry_of h ip = Some e -> 500 <= intervalMs e) /\
  (forall t tm, timers h !! t = Some tm ->
     500 <= t_delay tm /\
     (t_delay tm <= TIMEOUT_MAX -> t_period tm = t_delay tm) /\
     (TIMEOUT_MAX < t_delay tm -> t_period tm = 1)) /\
  (forall ws ip iv,
     ip <> ""%string -> subscriptions h !! ip = None -> TIMEOUT_MAX < iv ->
     let h' := (step h (Message ws (Parsed "subscribe" ip (Routes.JNum iv)))).1 in
     exists e tm, entry_of h' ip = Some e /\ intervalMs e = iv /\
                  timers h' !! timer e = Some tm /\ t_period tm = 1).
Proof.
  intros h.
  assert (Invariants.all_entries (fun e => 500 <= intervalMs e) h) as Hall.
  { apply run_entries; simpl; intros; done || lia. }
  destruct (reachable_inv h (run_reachable init evs reachable_init)) as (Hwf & _).
  split; [|split].
  - intros ip e He. unfold entry_of in He.
    destruct (subscriptions h !! ip) as [r|]; [|done]. simpl in He. by eapply Hall.
  - intros t tm Ht. destruct (wf_timer h Hwf _ _ Ht) as (_ & Hs & e & Hr & Hte).
    destruct (wf_entry h Hwf _ _ Hs) as (e' & Hr' & Ht').
    rewrite Hr in Hr'. injection Hr' as <-. rewrite Hte, Ht in Ht'.
    injection Ht' as ->. cbn [t_delay].
    assert (500 <= intervalMs e) as Hfloor by (by eapply Hall).
    split; [done|].
    rewrite t_period_cases by done. cbn [t_delay]. unfold TIMEOUT_MAX in *.
    split; intros Hd.
    + by rewrite (proj2 (Z.leb_le _ _)) by done.
    + by rewrite (proj2 (Z.leb_gt _ _)) by done.
  - intros ws ip iv Hip Hs Hiv h'. subst h'.
    destruct ip as [|c s]; [done|]. rewrite subscribe_step. cbn [fst].
    assert (message_interval (Routes.JNum iv) = iv) as -> .
    { unfold message_interval, TIMEOUT_MAX in *. lia. }
    rewrite ensurePolling_new by done. cbn [fst snd].
    unfold clients_add, set_heap, entry_of.
    cbn [subscriptions heap timers]. rewrite lookup_insert_eq. cbn [mbind option_bind].
    rewrite alter_insert_eq, lookup_insert_eq.
    eexists _, _. split; [done|]. cbn [intervalMs timer]. split; [done|].
    rewrite lookup_insert_eq. split; [done|].
    unfold t_period, TIMEOUT_MAX in *. cbn [t_delay].
    rewrite (proj2 (Z.leb_gt _ _) Hiv). by rewrite andb_false_r.
Qed.

(** The running timers are exactly the timers of the registered
    entries, one for each, started with the entry's interval as its
    delay: no timer is left behind and no entry is without one. *)
Theorem timers_are_the_entries_timers (evs : list Event) (t : nat) (tm : Timer) :
  let h := run init evs in
  timers h !! t = Some tm <->
  exists e, subscriptions h !! t_ip tm = Some (t_entry tm) /\
            heap h !! t_entry tm = Some e /\ timer e = t /\ t_delay tm = intervalMs e.
Proof.
  intros h.
  destruct (reachable_inv h (run_reachable init evs reachable_init)) as (Hwf & _).
  split.
  - intros Ht. destruct (wf_timer h Hwf _ _ Ht) as (_ & Hs & e & Hr & Hte).
    exists e. do 3 (split; [done|]).
    destruct (wf_entry h Hwf _ _ Hs) as (e' & Hr' & Ht').
    rewrite Hr in Hr'. injection Hr' as <-. rewrite Hte, Ht in Ht'. by injection Ht' as ->.
  - intros (e & Hs & Hr & Hte & Hp).
    destruct (wf_entry h Hwf _ _ Hs) as (e' & Hr' & Ht').
    rewrite Hr in Hr'. injection Hr' as <-. rewrite Hte, <- Hp in Ht'.
    by destruct tm.
Qed.

(** *** Timers that were cleared *)

Lemma ensurePolling_timer_dead h ip iv t :
  (t < next_timer h)%nat -> timers h !! t = None ->
  (t < next_timer (ensurePolling ip iv h).2)%nat /\
  timers (ensurePolling ip iv h).2 !! t = None.
Proof.
  intros Hlt Hn. unfold ensurePolling.
  destruct (subscriptions h !! ip) as [r0|].
  - destruct (heap h !! r0) as [e0|]; [|done].
    destruct (iv <? intervalMs e0); [|done]. simpl. split; [lia|].
    rewrite lookup_insert_ne by lia. rewrite lookup_delete_None. by right.
  - simpl. split; [lia|]. by rewrite lookup_insert_ne by lia.
Qed.

Lemma close_one_timer_dead h ws kv t :
  (t < next_timer h)%nat -> timers h !! t = None ->
  (t < next_timer (close_one ws h kv))%nat /\ timers (close_one ws h kv) !! t = None.
Proof.
  intros Hlt Hn. unfold close_one, cleanupSubscription. simpl.
  destruct (subscriptions h !! kv.1); [|done].
  destruct (alter _ _ _ !! _) as [e|]; [|done]. destruct (clients e); [|done].
  simpl. split; [done|]. rewrite lookup_delete_None. by right.
Qed.

Lemma close_loop_timer_dead ws (l : list (string * nat)) t : forall h,
  (t < next_timer h)%nat -> timers h !! t = None ->
  (t < next_timer (foldl (close_one ws) h l))%nat /\
  timers (foldl (close_one ws) h l) !! t = None.
Proof.
  induction l as [|kv l IH]; intros h Hlt Hn; [done|].
  simpl. destruct (close_one_timer_dead h ws kv t Hlt Hn). by apply IH.
Qed.

Lemma step_timer_dead h ev t :
  (t < next_timer h)%nat -> timers h !! t = None ->
  (t < next_timer (step h ev).1)%nat /\ timers (step h ev).1 !! t = None.
Proof.
  intros Hlt Hn. destruct ev as [ws q|ws m|ws|t'|k data tr]; simpl.
  - unfold on_connection. destruct q as [[[[|c s]|] iv]|]; try done.
    pose proof (ensurePolling_timer_dead h (String c s) (query_interval iv) t Hlt Hn).
    by destruct (ensurePolling _ _ h).
  - unfold on_message. destruct m as [|ty [|c s] iv]; try done.
    destruct (String.eqb ty "subscribe").
    { pose proof (ensurePolling_timer_dead h (String c s) (message_interval iv) t Hlt Hn).
      by destruct (ensurePolling _ _ h). }
    destruct (String.eqb ty "unsubscribe").
    { simpl. destruct (subscriptions h !! String c s) as [r0|]; [|done].
      by apply (close_one_timer_dead h ws (String c s, r0)). }
    by destruct (String.eqb ty "snapshot").
  - by apply close_loop_timer_dead.
  - unfold on_tick. by destruct (timers h !! t').
  - unfold on_settle. by destruct (pending h !! k).
Qed.

Lemma run_timer_dead evs : forall h t,
  (t < next_timer h)%nat -> timers h !! t = None ->
  (t < next_timer (run h evs))%nat /\ timers (run h evs) !! t = None.
Proof.
  induction evs as [|ev evs IH]; intros h t Hlt Hn; [done|].
  destruct (step_timer_dead h ev t Hlt Hn). by apply (IH (step h ev).1).
Qed.

(** A timer that has been cleared never fires again: once an entry's
    timer is cleared (the last subscriber left, or the entry was
    retuned), no later traffic makes that timer start an assembly; a
    later subscription polls with a timer of its own. *)
Theorem cleared_timer_never_fires (h : State) (evs : list Event) (t : nat) :
  (t < next_timer h)%nat -> timers h !! t = None ->
  timers (run h evs) !! t = None /\
  step (run h evs) (Tick t) = (run h evs, []).
Proof.
  intros Hlt Hn. destruct (run_timer_dead evs h t Hlt Hn) as [_ Hd].
  split; [done|]. cbn [step]. unfold on_tick. by rewrite Hd.
Qed.

(** *** Assemblies that outlive their entry *)

Lemma ensurePolling_heap_other h ip iv r :
  r <> (ensurePolling ip iv h).1 -> heap (ensurePolling ip iv h).2 !! r = heap h !! r.
Proof.
  unfold ensurePolling. destruct (subscriptions h !! ip) as [r0|].
  - destruct (heap h !! r0) as [e0|]; [|done].
    destruct (iv <? intervalMs e0); [|done]. simpl. intros Hne.
    by rewrite lookup_insert_ne.
  - simpl. intros Hne. by rewrite lookup_insert_ne.
Qed.

Lemma ensurePolling_keeps_registered h ip iv ip' r :
  subscriptions h !! ip' = Some r -> subscriptions (ensurePolling ip iv h).2 !! ip' = Some r.
Proof.
  intros Hs. unfold ensurePolling. destruct (subscriptions h !! ip) as [r0|] eqn:Hip.
  - destruct (heap h !! r0) as [e0|]; [|done]. by destruct (iv <? intervalMs e0).
  - simpl. rewrite lookup_insert_ne; [done|]. intros ->. congruence.
Qed.

Lemma subscribe_orphans h ip iv ws :
  wf h -> orphans_empty h ->
  orphans_empty (clients_add (ensurePolling ip iv h).1 ws (ensurePolling ip iv h).2).
Proof.
  intros Hwf Ho r e Hr Hun. simpl in Hr.
  pose proof (ensurePolling_registered h ip iv Hwf) as Hreg.
  assert (r <> (ensurePolling ip iv h).1) as Hne.
  { intros ->. by apply (Hun ip). }
  rewrite lookup_alter_ne in Hr by done.
  rewrite ensurePolling_heap_other in Hr by done.
  apply (Ho r e Hr). intros ip' Hs. apply (Hun ip'). simpl.
  by apply ensurePolling_keeps_registered.
Qed.

Lemma close_loop_orphans ws (l : list (string * nat)) h :
  wf h -> NoDup l.*1 ->
  (forall ip r, (ip, r) ∈ l -> subscriptions h !! ip = Some r) ->
  orphans_empty h ->
  orphans_empty (foldl (close_one ws) h l).
Proof.
  intros Hwf Hnd Hreg Ho.
  destruct (close_loop ws l h Hwf Hnd Hreg) as (HW & HS & HH & HT & HE).
  intros r e' Hr Hun.
  destruct (decide (r ∈ l.*2)) as [Hin|Hnin].
  - apply list_elem_of_fmap in Hin as ([ip' r'] & -> & Hin). simpl in *.
    destruct (wf_entry h Hwf _ _ (Hreg _ _ Hin)) as (e0 & Hr0 & _).
    destruct (HE _ _ _ Hin Hr0) as [Hh Hi]. rewrite Hr in Hh. injection Hh as ->.
    simpl. case_decide as Hc; [done|]. destruct Hi as [Hs' _]. by destruct (Hun ip').
  - rewrite HH in Hr by done. apply (Ho r e' Hr).
    intros ip' Hs. apply (Hun ip'). rewrite HS; [done|].
    intros Hin. apply Hnin. apply list_elem_of_fmap in Hin as ([ip'' r''] & -> & Hin).
    simpl in *. rewrite (Hreg _ _ Hin) in Hs. injection Hs as ->.
    apply list_elem_of_fmap. by exists (ip'', r).
Qed.

Lemma step_orphans h ev : wf h -> orphans_empty h -> orphans_empty (step h ev).1.
Proof.
  intros Hwf Ho. destruct ev as [ws q|ws m|ws|t|k data tr]; simpl.
  - unfold on_connection. destruct q as [[[[|c s]|] iv]|]; try done.
    pose proof (subscribe_orphans h (String c s) (query_interval iv) ws Hwf Ho) as H.
    by destruct (ensurePolling _ _ h).
  - unfold on_message. destruct m as [|ty [|c s] iv]; try done.
    destruct (String.eqb ty "subscribe").
    { pose proof (subscribe_orphans h (String c s) (message_interval iv) ws Hwf Ho) as H.
      by destruct (ensurePolling _ _ h). }
    destruct (String.eqb ty "unsubscribe").
    { simpl. destruct (subscriptions h !! String c s) as [r|] eqn:Hs; [|done].
      rewrite unsubscribe_as_loop.
      destruct (singleton_registered h _ _ Hs) as [Hnd Hreg].
      by apply close_loop_orphans. }
    by destruct (String.eqb ty "snapshot").
  - apply close_loop_orphans; [done|apply NoDup_fst_map_to_list| |done].
    intros ip r Hin. by apply elem_of_map_to_list in Hin.
  - unfold on_tick. by destruct (timers h !! t).
  - unfold on_settle. by destruct (pending h !! k).
Qed.

Lemma run_orphans evs : orphans_empty (run init evs).
Proof.
  induction evs as [|ev evs IH] using rev_ind.
  - intros r e Hr. simpl in Hr. by rewrite lookup_empty in Hr.
  - rewrite run_snoc. apply step_orphans; [|done].
    by destruct (reachable_inv _ (run_reachable init evs reachable_init)).
Qed.

(** The result of an assembly that outlives its entry is discarded: when
    the entry object a tick polled for has left the registry by the time
    the assembly returns, nothing is sent, also when the device has been
    subscribed to again in the meantime (that is another entry
    object). *)
Theorem stale_assembly_is_discarded (evs : list Event) (k : nat) (data : Snapshot)
    (tr : Transport) (ip : string) (r : nat) :
  let h := run init evs in
  pending h !! k = Some (PollTick ip r) ->
  unregistered h r ->
  (on_settle k data tr h).2 = [].
Proof.
  intros h Hp Hun. unfold on_settle. rewrite Hp. cbn [snd].
  assert (entry_clients r h = []) as ->; [|done].
  unfold entry_clients. destruct (heap h !! r) as [e|] eqn:Hr; [|done].
  by apply (run_orphans evs r e).
Qed.

(** *** Operations that change nothing *)

Lemma close_one_absent h ws ip r e :
  subscriptions h !! ip = Some r -> heap h !! r = Some e ->
  clients e <> [] -> ws ∉ clients e ->
  close_one ws h (ip, r) = h.
Proof.
  intros Hs Hr Hne Hn. unfold close_one. cbn [fst snd].
  rewrite clients_delete_absent by (unfold entry_clients; by rewrite Hr).
  by apply (cleanupSubscription_nonempty h ip r e).
Qed.

Lemma close_loop_absent ws (l : list (string * nat)) h :
  wf h -> entries_nonempty h ->
  (forall ip, ws ∉ subscribers h ip) ->
  (forall ip r, (ip, r) ∈ l -> subscriptions h !! ip = Some r) ->
  foldl (close_one ws) h l = h.
Proof.
  intros Hwf Hne Hn. induction l as [|[ip r] l IH]; intros Hreg; [done|].
  cbn [foldl].
  assert (subscriptions h !! ip = Some r) as Hs by (apply Hreg; left).
  destruct (wf_entry h Hwf _ _ Hs) as (e & Hr & _).
  rewrite (close_one_absent h ws ip r e); [|done|done|by eapply Hne|].
  - apply IH. intros ip' r' Hin. apply Hreg. by right.
  - specialize (Hn ip). by rewrite (subscribers_entry h ip r e) in Hn.
Qed.

Lemma on_close_absent h ws ip : wf h -> ws ∉ subscribers (on_close ws h) ip.
Proof.
  intros Hwf. unfold on_close.
  assert (NoDup (map_to_list (subscriptions h)).*1) as Hnd by apply NoDup_fst_map_to_list.
  assert (forall ip r, (ip, r) ∈ map_to_list (subscriptions h) ->
                       subscriptions h !! ip = Some r) as Hreg
    by (intros ? ? Hin; by apply elem_of_map_to_list in Hin).
  destruct (close_loop ws _ h Hwf Hnd Hreg) as (HW & HS & HH & HT & HE).
  set (h' := foldl (close_one ws) h (map_to_list (subscriptions h))) in *.
  destruct (subscriptions h' !! ip) as [r|] eqn:Hs';
    [|rewrite subscribers_unregistered by done; apply not_elem_of_nil].
  assert (subscriptions h !! ip = Some r) as Hs.
  { destruct (subscriptions h !! ip) as [r0|] eqn:Hs.
    - destruct (wf_entry h Hwf _ _ Hs) as (e & Hr & _).
      destruct (HE ip r0 e) as [_ Hi]; [by apply elem_of_map_to_list|done|].
      case_decide; destruct Hi; congruence.
    - pose proof (close_loop_unregistered ws (map_to_list (subscriptions h)) h ip Hs) as Hu.
      fold h' in Hu. congruence. }
  destruct (wf_entry h Hwf _ _ Hs) as (e & Hr & _).
  destruct (HE ip r e) as [Hh _]; [by apply elem_of_map_to_list|done|].
  rewrite (subscribers_entry h' ip r _ Hs' Hh). simpl.
  rewrite elem_of_set_delete. by intros [_ ?].
Qed.

(** Closing a connection that is subscribed to nothing leaves the hub
    exactly as it is; so closing a connection twice is the same as
    closing it once. *)
Theorem close_without_subscriptions_is_noop (evs : list Event) (ws : nat) :
  let h := run init evs in
  ((forall ip, ws ∉ subscribers h ip) -> step h (Close ws) = (h, [])) /\
  run h [Close ws; Close ws] = run h [Close ws].
Proof.
  intros h.
  assert (forall h0, reachable h0 -> (forall ip, ws ∉ subscribers h0 ip) ->
                     on_close ws h0 = h0) as Hnoop.
  { intros h0 Hreach Hn. destruct (reachable_inv h0 Hreach) as (Hwf & Hne & _).
    apply close_loop_absent; try done.
    intros ip r Hin. by apply elem_of_map_to_list in Hin. }
  pose proof (run_reachable init evs reachable_init) as Hreach. fold h in Hreach.
  split.
  - intros Hn. cbn [step]. by rewrite Hnoop.
  - unfold run at 1 2. cbn [foldl step fst].
    apply Hnoop.
    + apply (reachable_step h (Close ws) Hreach).
    + intros ip. apply on_close_absent. by destruct (reachable_inv h Hreach).
Qed.

Lemma set_delete_add ws (l : list nat) : ws ∉ l -> set_delete ws (set_add ws l) = l.
Proof.
  intros Hn. unfold set_add. rewrite decide_False by done.
  unfold set_delete. rewrite filter_app, filter_cons_False, filter_nil by (intros ?; done).
  rewrite app_nil_r. by apply set_delete_absent.
Qed.

Lemma set_add_present ws (l : list nat) : ws ∈ l -> set_add ws l = l.
Proof. intros Hin. unfold set_add. by rewrite decide_True. Qed.

(** Subscribe followed by unsubscribe is a round trip for a connection
    that was not subscribed.  On a device with an entry, and with an
    interval that is not shorter than the entry's, the hub is exactly as
    before.  On a device without an entry, the registry and the running
    timers are as before (the entry made in between is gone and its timer
    cleared) and the earlier entry objects are untouched. *)
Theorem subscribe_unsubscribe_round_trip (evs : list Event) (ip : string) (ws : nat)
    (j j' : Routes.Json) :
  let h := run init evs in
  let h' := run h [Message ws (Parsed "subscribe" ip j);
                   Message ws (Parsed "unsubscribe" ip j')] in
  ip <> ""%string -> ws ∉ subscribers h ip ->
  match entry_of h ip with
  | Some e => intervalMs e <= message_interval j -> h' = h
  | None =>
      subscriptions h' = subscriptions h /\ timers h' = timers h /\
      pending h' = pending h /\
      forall r e, heap h !! r = Some e -> heap h' !! r = Some e
  end.
Proof.
  intros h h' Hip Hn. subst h'.
  destruct (reachable_inv h (run_reachable init evs reachable_init)) as (Hwf & Hne & Hb).
  destruct ip as [|c s]; [done|].
  unfold run. cbn [foldl]. rewrite subscribe_step. cbn [fst].
  rewrite unsubscribe_step. cbn [fst].
  unfold entry_of. destruct (subscriptions h !! String c s) as [r|] eqn:Hs; simpl.
  - destruct (wf_entry h Hwf _ _ Hs) as (e & Hr & _). rewrite Hr. intros Hle.
    rewrite (ensurePolling_keep h _ _ r e) by done. cbn [fst snd].
    change (subscriptions (clients_add r ws h)) with (subscriptions h). rewrite Hs.
    cbn [foldl]. unfold close_one. cbn [fst snd].
    rewrite (subscribers_entry h _ r e) in Hn by done.
    assert (clients_delete r ws (clients_add r ws h) = h) as ->.
    { unfold clients_delete, clients_add. simpl. rewrite alter_alter_eq.
      rewrite alter_id; [by destruct h|].
      intros e' He'. rewrite Hr in He'. injection He' as <-. simpl.
      rewrite set_delete_add by done. by destruct e. }
    apply (cleanupSubscription_nonempty h _ r e); eauto.
  - rewrite ensurePolling_new by done. cbn [fst snd].
    set (r := next_ref h). set (t := next_timer h).
    assert (heap h !! r = None) as Hfresh.
    { destruct (heap h !! r) as [e|] eqn:Hr; [|done].
      pose proof (wf_heap h Hwf _ _ Hr). unfold r in *. lia. }
    assert (timers h !! t = None) as Htfresh.
    { destruct (timers h !! t) as [tm|] eqn:Ht; [|done].
      destruct (wf_timer h Hwf _ _ Ht). unfold t in *. lia. }
    unfold clients_add, set_heap.
    cbn [subscriptions heap timers pending next_ref next_timer].
    rewrite alter_insert_eq, lookup_insert_eq. cbn [foldl clients intervalMs timer].
    erewrite close_one_registered;
      [|cbn [subscriptions]; apply lookup_insert_eq|cbn [heap]; apply lookup_insert_eq].
    cbn zeta. cbn [clients intervalMs timer].
    rewrite set_delete_add by apply not_elem_of_nil.
    rewrite decide_True by done.
    cbn [subscriptions heap timers pending next_ref next_timer].
    rewrite !delete_insert_id by done.
    do 3 (split; [done|]).
    intros r' e' Hr'. assert (r <> r') by (intros <-; congruence).
    by rewrite !lookup_insert_ne.
Qed.

(** A connection is in a subscriber set at most once, and subscribing
    again, with an interval that is not shorter than the entry's, changes
    nothing in the hub. *)
Theorem subscribing_twice_changes_nothing (evs : list Event) (ip : string) :
  let h := run init evs in
  NoDup (subscribers h ip) /\
  forall ws j e,
    entry_of h ip = Some e -> ws ∈ clients e -> intervalMs e <= message_interval j ->
    step h (Message ws (Parsed "subscribe" ip j)) =
    (h, [Sent ws (MsgSubscribed ip (intervalMs e))]).
Proof.
  intros h.
  destruct (reachable_inv h (run_reachable init evs reachable_init)) as (Hwf & Hne & Hb).
  split.
  - unfold subscribers, entry_of.
    destruct (subscriptions h !! ip) as [r|]; simpl; [|apply NoDup_nil_2].
    destruct (heap h !! r) as [e|] eqn:Hr; [|apply NoDup_nil_2].
    refine (run_entries (fun e => NoDup (clients e)) _ _ _ _ evs r e Hr); simpl; intros.
    + apply NoDup_nil_2.
    + done.
    + by apply set_add_NoDup.
    + by apply set_delete_NoDup.
  - intros ws j e He Hin Hle. unfold entry_of in He.
    destruct (subscriptions h !! ip) as [r|] eqn:Hs; [|done]. simpl in He.
    destruct ip as [|c s]; [congruence|].
    rewrite subscribe_step. rewrite (ensurePolling_keep h _ _ r e) by done. cbn [fst snd].
    assert (clients_add r ws h = h) as ->.
    { unfold clients_add. rewrite alter_id; [by destruct h|].
      intros e' He'. rewrite He in He'. injection He' as <-.
      rewrite set_add_present by done. by destruct e. }
    unfold entry_interval. by rewrite He.
Qed.

(** Devices are independent: a message about one device leaves the
    entry of every other device as it is, with its subscribers, its
    interval and its running timer. *)
Theorem message_leaves_other_devices_alone (evs : list Event) (ws : nat) (ty ip : string)
    (j : Routes.Json) (ip' : string) :
  let h := run init evs in
  let h' := (step h (Message ws (Parsed ty ip j))).1 in
  ip' <> ip ->
  entry_of h' ip' = entry_of h ip' /\
  subscriptions h' !! ip' = subscriptions h !! ip' /\
  forall e, entry_of h ip' = Some e -> timers h' !! timer e = timers h !! timer e.
Proof.
  intros h h' Hne.
  pose proof (run_reachable init evs reachable_init) as Hreach. fold h in Hreach.
  destruct (reachable_inv h Hreach) as (Hwf & _).
  destruct (reachable_inv h' (reachable_step h _ Hreach)) as (Hwf' & _).
  assert (subscriptions h' !! ip' = subscriptions h !! ip' /\
          forall r', subscriptions h !! ip' = Some r' -> heap h' !! r' = heap h !! r')
    as [Hsub Hheap].
  { subst h'. cbn [step]. unfold on_message. destruct ip as [|c s]; [done|].
    destruct (String.eqb ty "subscribe").
    { destruct (ensurePolling_other h (String c s) (message_interval j) ip' Hwf Hne)
        as [Hso Hho].
      pose proof (ensurePolling_registered h (String c s) (message_interval j) Hwf) as Hreg.
      pose proof (ensurePolling_wf h (String c s) (message_interval j) Hwf) as Hwf1.
      destruct (ensurePolling _ _ h) as [r0 h1]. cbn [fst snd] in *.
      split; [done|]. intros r' Hs'. simpl. rewrite lookup_alter_ne; [by apply Hho|].
      intros <-. apply Hne. rewrite <- Hso in Hs'. eauto using wf_inj. }
    destruct (String.eqb ty "unsubscribe").
    { cbn [fst]. destruct (subscriptions h !! String c s) as [r|] eqn:Hs; [|done].
      rewrite unsubscribe_as_loop.
      destruct (singleton_registered h _ _ Hs) as [Hnd Hreg].
      destruct (close_loop ws _ h Hwf Hnd Hreg) as (_ & HS & HH & _).
      split.
      - apply HS. simpl. rewrite list_elem_of_singleton. done.
      - intros r' Hs'. apply HH. simpl. rewrite list_elem_of_singleton.
        intros ->. apply Hne. eauto using wf_inj. }
    by destruct (String.eqb ty "snapshot"). }
  assert (entry_of h' ip' = entry_of h ip') as Hentry.
  { unfold entry_of. rewrite Hsub. destruct (subscriptions h !! ip') as [r'|] eqn:Hs'; [|done].
    simpl. by apply Hheap. }
  split; [done|]. split; [done|].
  intros e He. pose proof He as He'. rewrite <- Hentry in He'.
  unfold entry_of in He, He'.
  destruct (subscriptions h !! ip') as [r'|] eqn:Hs; [|done].
  rewrite Hsub in He'. simpl in He, He'.
  destruct (wf_entry h Hwf _ _ Hs) as (e1 & Hr1 & Ht1).
  destruct (wf_entry h' Hwf' _ _ Hsub) as (e2 & Hr2 & Ht2).
  rewrite He in Hr1. injection Hr1 as <-. rewrite He' in Hr2. injection Hr2 as <-.
  by rewrite Ht1, Ht2.
Qed.

End HubMore.

(** ** Who a delivery reaches *)

Section DeliveryFacts.
Import JS Assembler Hub.

Lemma send_each_sent tr (l : list nat) msg ws m :
  Sent ws m ∈ (send_each tr l msg).1 ->
  ws ∈ l /\ is_open tr ws = true /\ send_throws tr ws = None /\ m = msg.
Proof.
  induction l as [|ws' l IH]; cbn [send_each fst]; [by intros ?%elem_of_nil|].
  destruct (is_open tr ws') eqn:Ho.
  - destruct (send_throws tr ws') eqn:Ht; [by intros ?%elem_of_nil|].
    destruct (send_each tr l msg) as [out thrown]. cbn [fst] in *.
    intros [[= -> ->]|Hin]%elem_of_cons.
    + split; [by left|done].
    + destruct (IH Hin) as (? & ? & ? & ?). split; [by right|done].
  - intros Hin. destruct (IH Hin) as (? & ? & ? & ?). split; [by right|done].
Qed.

Lemma broadcast_sent tr ip (l : list nat) data ws m :
  Sent ws m ∈ broadcast tr ip l data ->
  ws ∈ l /\ is_open tr ws = true /\ send_throws tr ws = None /\
  (m = MsgSnapshot ip data \/ exists e, m = MsgError (Some ip) e).
Proof.
  unfold broadcast.
  pose proof (send_each_sent tr l (MsgSnapshot ip data) ws m) as H1.
  destruct (send_each tr l (MsgSnapshot ip data)) as [out [e|]]; cbn [fst] in H1.
  - pose proof (send_each_sent tr l (MsgError (Some ip) e) ws m) as H2.
    destruct (send_each tr l (MsgError (Some ip) e)) as [out' [e'|]]; cbn [fst] in H2.
    + rewrite !elem_of_app, list_elem_of_singleton. intros [Hin|[Hin|Hin]]; [| |done].
      * destruct (H1 Hin) as (? & ? & ? & ?). eauto 6.
      * destruct (H2 Hin) as (? & ? & ? & ?). eauto 8.
    + rewrite elem_of_app. intros [Hin|Hin].
      * destruct (H1 Hin) as (? & ? & ? & ?). eauto 6.
      * destruct (H2 Hin) as (? & ? & ? & ?). eauto 8.
  - intros Hin. destruct (H1 Hin) as (? & ? & ? & ?). eauto 6.
Qed.

(** Whatever the transport does, the result of an assembly reaches only
    connections that are open and whose send went through: for a poll
    tick these are clients of the entry object the tick polled for, for a
    one-off request it is the requester alone; and what they get is the
    snapshot of the device asked for, or an error message about that
    device. *)
Theorem delivery_reaches_only_open_recipients (h : State) (k : nat) (data : Snapshot)
    (tr : Transport) (ws : nat) (m : ServerMsg) :
  Sent ws m ∈ (on_settle k data tr h).2 ->
  is_open tr ws = true /\ send_throws tr ws = None /\
  exists p, pending h !! k = Some p /\
    match p with
    | PollTick _ entry => ws ∈ entry_clients entry h
    | OneOff _ requester => ws = requester
    end /\
    (m = MsgSnapshot (pending_ip p) data \/ exists e, m = MsgError (Some (pending_ip p)) e).
Proof.
  unfold on_settle. destruct (pending h !! k) as [p|]; cbn [snd]; [|by intros ?%elem_of_nil].
  intros Hin. destruct p as [ip entry|ip requester];
    apply broadcast_sent in Hin as (Hl & Ho & Ht & Hm).
  - split; [done|]. split; [done|]. eexists. split; [done|]. done.
  - apply list_elem_of_singleton in Hl. split; [done|]. split; [done|].
    eexists. split; [done|]. done.
Qed.

End DeliveryFacts.

(** ** The dashboard *)

Section DashboardFacts.
Import JS Routes Dashboard Hub.

Lemma hex_digit_cases (c : ascii) (d : Z) :
  digit_value c = Some d -> d < 16 ->
  In (c, d) [("0", 0); ("1", 1); ("2", 2); ("3", 3); ("4", 4); ("5", 5); ("6", 6); ("7", 7);
             ("8", 8); ("9", 9); ("a", 10); ("b", 11); ("c", 12); ("d", 13); ("e", 14);
             ("f", 15); ("A", 10); ("B", 11); ("C", 12); ("D", 13); ("E", 14);
             ("F", 15)]%char.
Proof.
  destruct c as [[] [] [] [] [] [] [] []]; vm_compute; intros [= <-] Hd;
    first [discriminate Hd | tauto].
Qed.

Lemma parse_hex_pair (c1 c2 : ascii) (d1 d2 : Z) :
  digit_value c1 = Some d1 -> d1 < 16 -> digit_value c2 = Some d2 -> d2 < 16 ->
  parse_int (Some 16) (String c1 (String c2 EmptyString)) = Some (false, 16 * d1 + d2).
Proof.
  intros H1 L1 H2 L2.
  pose proof (hex_digit_cases c1 d1 H1 L1) as C1.
  pose proof (hex_digit_cases c2 d2 H2 L2) as C2.
  clear H1 L1 H2 L2. simpl in C1, C2.
  repeat (destruct C1 as [C1|C1]); try done; injection C1 as <- <-;
    repeat (destruct C2 as [C2|C2]); try done; injection C2 as <- <-;
    vm_compute; reflexivity.
Qed.

(** The colour picker reaches the printer unchanged: for a colour
    [#rrggbb] of six hexadecimal digits the custom LED button makes the
    server send the custom command with exactly the three channel values
    of the colour; the server's clamping changes none of them. *)
Theorem picked_colour_is_sent_unchanged (c1 c2 c3 c4 c5 c6 : ascii) (d1 d2 d3 d4 d5 d6 : Z) :
  digit_value c1 = Some d1 /\ d1 < 16 -> digit_value c2 = Some d2 /\ d2 < 16 ->
  digit_value c3 = Some d3 /\ d3 < 16 -> digit_value c4 = Some d4 /\ d4 < 16 ->
  digit_value c5 = Some d5 /\ d5 < 16 -> digit_value c6 = Some d6 /\ d6 < 16 ->
  led_command
    (led_custom_body
       (String "#" (String c1 (String c2 (String c3 (String c4 (String c5 (String c6 ""))))))))
  = led_custom (16 * d1 + d2) (16 * d3 + d4) (16 * d5 + d6).
Proof.
  intros [H1 L1] [H2 L2] [H3 L3] [H4 L4] [H5 L5] [H6 L6].
  assert (forall c d, digit_value c = Some d -> 0 <= d) as Hpos.
  { intros c d. unfold digit_value.
    repeat case_match; intros [= <-]; lia. }
  pose proof (Hpos _ _ H1). pose proof (Hpos _ _ H2). pose proof (Hpos _ _ H3).
  pose proof (Hpos _ _ H4). pose proof (Hpos _ _ H5). pose proof (Hpos _ _ H6).
  unfold led_command, led_custom_body, channel. cbn [state r g b strict_eq_str].
  cbn [String.substring].
  rewrite (parse_hex_pair c1 c2 d1 d2), (parse_hex_pair c3 c4 d3 d4),
    (parse_hex_pair c5 c6 d5 d6) by done.
  unfold clamp_channel. f_equal; lia.
Qed.

Lemma updateTemperature_window (p : TempPoint) (points : list TempPoint) :
  updateTemperature p (drop (length points - maxTempHistory) points)
  = drop (length (points ++ [p]) - maxTempHistory) (points ++ [p]).
Proof.
  unfold updateTemperature. cbn zeta.
  rewrite !length_app, length_drop. cbn [length].
  destruct (Nat.ltb_spec maxTempHistory (length points - (length points - maxTempHistory) + 1))
    as [Hlt|Hge].
  - assert (maxTempHistory <= length points)%nat as Hn by lia.
    replace (length points + 1 - maxTempHistory)%nat
      with (S (length points - maxTempHistory)) by (unfold maxTempHistory in *; lia).
    assert (length points - maxTempHistory < length points)%nat as Hk
      by (unfold maxTempHistory in *; lia).
    revert Hk. generalize (length points - maxTempHistory)%nat as k. clear.
    induction points as [|q points IH]; intros k Hk; simpl in *; [lia|].
    destruct k as [|k]; [done|]. simpl. apply IH. lia.
  - replace (length points + 1 - maxTempHistory)%nat with 0%nat by lia.
    replace (length points - maxTempHistory)%nat with 0%nat by lia.
    done.
Qed.

(** The chart keeps the latest readings: after any number of
    temperature updates the history is the last 50 points, in order, and
    never longer than 50. *)
Theorem temperature_history_is_last_50 (points : list TempPoint) :
  history points = drop (length points - maxTempHistory) points /\
  (length (history points) <= maxTempHistory)%nat.
Proof.
  assert (history points = drop (length points - maxTempHistory) points) as H.
  { induction points as [|p points IH] using rev_ind; [done|].
    unfold history in *. rewrite foldl_app. cbn [foldl]. rewrite IH.
    apply updateTemperature_window. }
  split; [done|]. rewrite H, length_drop. lia.
Qed.

(** *** The polling interval the dashboard asks for *)

Lemma digit_value_pretty_N_char (x : N) :
  (x < 10)%N ->
  digit_value (pretty_N_char x) = Some (Z.of_N x) /\
  is_white_space (pretty_N_char x) = false /\
  forall s, strip_sign (String (pretty_N_char x) s) = (false, String (pretty_N_char x) s).
Proof.
  intros Hx.
  assert (x = 0 \/ x = 1 \/ x = 2 \/ x = 3 \/ x = 4 \/ x = 5 \/ x = 6 \/ x = 7 \/ x = 8
          \/ x = 9)%N as Hc by lia.
  repeat (destruct Hc as [->|Hc]); try subst x; done.
Qed.

Lemma pretty_N_go_head (x : N) (s : string) :
  (0 < x)%N ->
  exists d rest, (d < 10)%N /\ pretty_N_go x s = String (pretty_N_char d) rest.
Proof.
  revert s. induction (N.lt_wf_0 x) as [x _ IH]. intros s Hx.
  rewrite pretty_N_go_step by done.
  destruct (decide (x `div` 10 = 0)%N) as [Hz|Hz].
  - rewrite Hz, pretty_N_go_0. eexists _, _. split; [|done]. by apply N.mod_lt.
  - apply IH; [by apply N.div_lt|by apply N.neq_0_lt_0].
Qed.

Lemma digits_prefix_pretty_N_go (x : N) (s : string) (acc : option Z) :
  (0 < x)%N ->
  exists m, digits_prefix 10 (pretty_N_go x s) acc
            = digits_prefix 10 s (Some (default 0 acc * m + Z.of_N x)).
Proof.
  revert s acc. induction (N.lt_wf_0 x) as [x _ IH]. intros s acc Hx.
  rewrite pretty_N_go_step by done.
  assert (x `mod` 10 < 10)%N as Hm by (by apply N.mod_lt).
  destruct (digit_value_pretty_N_char _ Hm) as (Hd & _ & _).
  pose proof (N.div_mod x 10 ltac:(done)) as Hx10.
  destruct (decide (x `div` 10 = 0)%N) as [Hz|Hz].
  - rewrite Hz, pretty_N_go_0. cbn [digits_prefix]. rewrite Hd.
    rewrite Hz in Hx10. revert Hm Hx10. generalize (x `mod` 10)%N as r. intros r Hm Hx10.
    rewrite (proj2 (Z.ltb_lt _ _)) by lia.
    exists 10. do 2 f_equal. lia.
  - destruct (IH (x `div` 10)%N ltac:(by apply N.div_lt)
                (String (pretty_N_char (x `mod` 10)) s) acc ltac:(by apply N.neq_0_lt_0)) as [m ->].
    cbn [digits_prefix]. rewrite Hd. clear Hd IH Hz.
    revert Hm Hx10. generalize (x `mod` 10)%N as r, (x `div` 10)%N as q. intros r q Hm Hx10.
    rewrite (proj2 (Z.ltb_lt _ _)) by lia.
    exists (10 * m). do 2 f_equal. cbn [default]. unfold id. lia.
Qed.

Lemma parse_digits_pretty (p : positive) :
  (let '(r, s2) :=
     match strip_hex_prefix (pretty (N.pos p)) with
     | Some s' => if 10 =? 16 then (16, s') else (10, pretty (N.pos p))
     | None => (10, pretty (N.pos p))
     end in digits_prefix r s2 None) = Some (Z.pos p).
Proof.
  assert (digits_prefix 10 (pretty (N.pos p)) None = Some (Z.pos p)) as Hd.
  { unfold pretty, pretty_N. rewrite decide_False by done.
    destruct (digits_prefix_pretty_N_go (N.pos p) "" None ltac:(done)) as [m ->].
    cbn [digits_prefix default]. f_equal; lia. }
  by destruct (strip_hex_prefix _).
Qed.

Lemma pretty_pos_head (p : positive) :
  exists d rest, (d < 10)%N /\ pretty (N.pos p) = String (pretty_N_char d) rest.
Proof.
  unfold pretty, pretty_N. rewrite decide_False by done.
  by apply pretty_N_go_head.
Qed.

Lemma parse_int_pretty (v : Z) :
  v <> 0 ->
  (exists c s, pretty v = String c s) /\
  parse_int (Some 10) (pretty v) = Some (v <? 0, Z.abs v).
Proof.
  intros Hv. destruct v as [|p|p]; [done| |].
  - change (pretty (Z.pos p)) with (pretty (N.pos p)).
    destruct (pretty_pos_head p) as (d & rest & Hd & Hhead).
    destruct (digit_value_pretty_N_char d Hd) as (_ & Hws & Hsign).
    split; [by eauto|].
    unfold parse_int. rewrite Hhead at 1. cbn [skip_white_space]. rewrite Hws, Hsign.
    rewrite <- Hhead.
    pose proof (parse_digits_pretty p) as Hp.
    destruct (strip_hex_prefix _); cbn [Z.eqb Pos.eqb] in *; by rewrite Hp.
  - change (pretty (Z.neg p)) with (String "-" (pretty (N.pos p))).
    split; [by eauto|].
    unfold parse_int.
    change (skip_white_space (String "-" (pretty (N.pos p))))
      with (String "-" (pretty (N.pos p))).
    cbn [strip_sign].
    pose proof (parse_digits_pretty p) as Hp.
    destruct (strip_hex_prefix _); cbn [Z.eqb Pos.eqb] in *; by rewrite Hp.
Qed.

Lemma nearest_double_safe (n : Z) :
  Z.abs n <= MAX_SAFE_INTEGER -> nearest_double n = n.
Proof.
  unfold MAX_SAFE_INTEGER. intros Hn.
  assert (forall m, 0 <= m < 2 ^ 53 -> nearest_double_nonneg m = m) as Hnn.
  { intros m Hm. unfold nearest_double_nonneg. cbn zeta.
    assert (Z.log2 m + 1 <= 53) as Hb.
    { destruct (decide (m = 0)) as [->|]; [done|].
      assert (Z.log2 m < 53); [|lia]. apply Z.log2_lt_pow2; lia. }
    by rewrite (proj2 (Z.leb_le _ _) Hb). }
  unfold nearest_double. destruct (Z.ltb_spec n 0).
  - rewrite Hnn by lia. lia.
  - apply Hnn. lia.
Qed.

Lemma query_interval_pretty (v : Z) :
  v <> 0 -> Z.abs v <= MAX_SAFE_INTEGER ->
  query_interval (Some (pretty v)) = Z.max 500 v.
Proof.
  intros Hv Hsafe. unfold query_interval.
  destruct (parse_int_pretty v Hv) as [(c & s & Hs) Hp].
  rewrite Hs at 1. rewrite <- Hs, Hp.
  replace (if v <? 0 then - Z.abs v else Z.abs v) with v
    by (destruct (Z.ltb_spec v 0); lia).
  by rewrite nearest_double_safe.
Qed.

Lemma getSelectedInterval_nonzero (value : string) : getSelectedInterval value <> 0.
Proof.
  unfold getSelectedInterval. destruct (parse_int _ _) as [[neg n]|]; [|done].
  cbn zeta. by destruct (Z.eqb_spec (nearest_double (if neg then - n else n)) 0).
Qed.

(** The interval the dashboard selects is the interval the server is
    asked for, on both ways, as long as it is a safe integer: the query
    of the WebSocket URL reads back as the selected number (or as 500
    when that is smaller), which is what a [subscribe] message with the
    same selection asks for; so opening the socket registers the
    connection exactly as that message would, and starts one immediate
    assembly for it on top. *)
Theorem dashboard_interval_reaches_server (number_to_string : Z -> string)
    (h : State) (ws : nat) (ip value : string) :
  ip <> ""%string ->
  Z.abs (getSelectedInterval value) <= MAX_SAFE_INTEGER ->
  query_interval (buildWsUrl number_to_string ip (getSelectedInterval value)).2
    = Z.max 500 (getSelectedInterval value) /\
  (step h (startWebSocket number_to_string ws ip value)).1
    = add_pending (OneOff ip ws) (step h (startAutoRefresh ws ip value)).1.
Proof.
  intros Hip Hsafe. pose proof (getSelectedInterval_nonzero value) as Hv.
  assert (query_interval (buildWsUrl number_to_string ip (getSelectedInterval value)).2
          = Z.max 500 (getSelectedInterval value)) as Hq.
  { unfold buildWsUrl, Number_toString. cbn [snd].
    destruct (Z.eqb_spec (getSelectedInterval value) 0); [done|].
    rewrite (proj2 (Z.leb_le _ _) Hsafe).
    by apply query_interval_pretty. }
  split; [done|].
  destruct ip as [|c s]; [done|].
  unfold startWebSocket, startAutoRefresh. cbn [step on_connection on_message].
  revert Hq. unfold buildWsUrl. cbn [fst snd String.eqb Ascii.eqb]. intros ->.
  cbn [message_interval].
  by destruct (ensurePolling _ _ h).
Qed.

End DashboardFacts.

(** ** The handlers, the assembler and the hub on sample devices *)

Section MoreExamples.
Import JS Transaction Assembler Routes Handlers Hub Invariants Dashboard Samples MoreSamples.

Lemma handlers_stop_when_unlock_fails_witness :
  post_pause unreachable printer [] =
  (Returned (Json500 "connect ECONNREFUSED"), [(printer, PROTOCOL_MESSAGES.CONTROL)]).
Proof.
  refine (handlers_stop_when_unlock_fails no_match unreachable empty_body
            (mkRoute "POST /:ip/pause" (post_pause unreachable) PROTOCOL_MESSAGES.PAUSE
                     success_body)
            printer [] "connect ECONNREFUSED" _ _).
  - apply (list_elem_of_lookup_2 _ 6%nat). reflexivity.
  - reflexivity.
Defined.

Lemma handlers_send_one_line_after_unlock_witness :
  get_status no_match answers_ok printer [] =
  (Returned (Json200 (parse_status no_match "ok")),
   [(printer, PROTOCOL_MESSAGES.CONTROL); (printer, PROTOCOL_MESSAGES.STATUS)]).
Proof.
  refine (handlers_send_one_line_after_unlock no_match answers_ok empty_body
            (mkRoute "GET /:ip/status" (get_status no_match answers_ok)
                     PROTOCOL_MESSAGES.STATUS (parse_status no_match))
            printer [] "ok" (Resolved "ok") _ _ _).
  - apply (list_elem_of_lookup_2 _ 4%nat). reflexivity.
  - reflexivity.
  - reflexivity.
Defined.

Lemma query_handlers_agree_with_snapshot_witness :
  exists snap,
    (fetchSnapshot no_match temp_times_out fixed_clock printer []).1 = Returned snap /\
    (get_temp no_match temp_times_out printer []).1 =
      Returned (Json500 "Connection timeout") /\
    (get_status no_match temp_times_out printer []).1 = Returned (Json200 (status snap)).
Proof.
  destruct (query_handlers_agree_with_snapshot no_match temp_times_out fixed_clock printer
              [] [] (Resolved "ok") (Resolved "ok") (Resolved "ok")
              (Rejected "Connection timeout") (Resolved "ok") (Resolved "ok"))
    as (snap & Hsnap & _ & _ & Htemp & Hstatus); try reflexivity.
  - intros log log' c. reflexivity.
  - exists snap. split; [exact Hsnap|]. split; [exact Htemp|exact Hstatus].
Defined.

Lemma progress_handler_agrees_with_snapshot_witness :
  obj_get (progress_body progress_match progress_reply) "PercentageCompleted" =
  obj_get (parse_progress progress_match progress_reply) "PercentageCompleted".
Proof.
  refine (proj1 (proj2 (proj2 (progress_handler_agrees_with_snapshot progress_match
                                 progress_reply))) _).
  vm_compute. reflexivity.
Defined.

Lemma errors_name_the_failed_steps_witness :
  exists snap,
    (fetchSnapshot no_match temp_times_out fixed_clock printer []).1 = Returned snap /\
    Assembler.step <$> errors snap = ["TEMP"%string].
Proof.
  destruct (errors_name_the_failed_steps no_match temp_times_out fixed_clock printer
              [] (Resolved "ok") (Resolved "ok") (Resolved "ok")
              (Rejected "Connection timeout") (Resolved "ok") (Resolved "ok"))
    as (snap & Hsnap & Hnames & _); try reflexivity.
  exists snap. split; [exact Hsnap|exact Hnames].
Defined.

Lemma fetchSnapshot_waits_for_unsettled_step_witness :
  fetchSnapshot no_match temp_hangs fixed_clock printer [] =
  (Suspended,
   [(printer, PROTOCOL_MESSAGES.CONTROL); (printer, PROTOCOL_MESSAGES.INFO);
    (printer, PROTOCOL_MESSAGES.HEAD_POSITION); (printer, PROTOCOL_MESSAGES.TEMP)]).
Proof.
  refine (fetchSnapshot_waits_for_unsettled_step no_match temp_hangs fixed_clock printer
            [] 3 _ _ _).
  - lia.
  - intros [|[|[|j]]] Hj; [vm_compute; eauto ..|lia].
  - reflexivity.
Defined.

Lemma cleared_timer_never_fires_witness :
  let h := run init [Message 1 (subscribe printer 1000); Message 1 (unsubscribe printer)] in
  let h' := run h [Message 2 (subscribe printer 1000)] in
  timers h' !! 0%nat = None /\ Hub.step h' (Tick 0) = (h', []).
Proof.
  intros h h'.
  refine (cleared_timer_never_fires h [Message 2 (subscribe printer 1000)] 0 _ _).
  - vm_compute. lia.
  - reflexivity.
Defined.

Lemma stale_assembly_is_discarded_witness :
  let h := run init [Message 1 (subscribe printer 1000); Tick 0;
                     Message 1 (unsubscribe printer);
                     Message 2 (subscribe printer 1000)] in
  entry_clients 1 h = [2%nat] /\
  (on_settle 0 ok_snapshot (mkTransport (fun _ => true) (fun _ => None)) h).2 = [].
Proof.
  intros h. split; [reflexivity|].
  refine (stale_assembly_is_discarded _ 0 ok_snapshot _ printer 0 _ _).
  - reflexivity.
  - intros ip Hip.
    assert (subscriptions h = {[printer := 1%nat]}) as Hs by (vm_compute; reflexivity).
    fold h in Hip. rewrite Hs in Hip.
    apply lookup_singleton_Some in Hip. destruct Hip as [_ Hip]. discriminate Hip.
Defined.

Lemma subscribe_unsubscribe_round_trip_witness :
  let h := run init [Message 1 (subscribe printer 2000)] in
  run h [Message 2 (subscribe printer 5000); Message 2 (unsubscribe printer)] = h.
Proof.
  intros h.
  pose proof (subscribe_unsubscribe_round_trip [Message 1 (subscribe printer 2000)]
                printer 2 (JNum 5000) JUndefined) as H.
  cbv zeta in H. fold h in H.
  assert (entry_of h printer = Some (mkEntry [1%nat] 2000 0)) as He by reflexivity.
  rewrite He in H. apply H.
  - discriminate.
  - change (2%nat ∉ [1%nat]). intros Hin. apply list_elem_of_singleton in Hin.
    discriminate Hin.
  - vm_compute. discriminate.
Defined.

Lemma message_leaves_other_devices_alone_witness :
  let h := run init [Message 1 (subscribe "10.0.0.5" 5000)] in
  let h' := (Hub.step h (Message 2 (subscribe "10.0.0.6" 1000))).1 in
  entry_of h' "10.0.0.5" = entry_of h "10.0.0.5".
Proof.
  intros h h'.
  refine (proj1 (message_leaves_other_devices_alone [Message 1 (subscribe "10.0.0.5" 5000)]
                   2 "subscribe" "10.0.0.6" (JNum 1000) "10.0.0.5" _)).
  discriminate.
Defined.

Lemma picked_colour_is_sent_unchanged_witness :
  led_command (led_custom_body "#ff8000") = led_custom 255 128 0.
Proof.
  refine (picked_colour_is_sent_unchanged "f" "f" "8" "0" "0" "0" 15 15 8 0 0 0 _ _ _ _ _ _);
    (split; [reflexivity|lia]).
Defined.

Lemma delivery_reaches_only_open_recipients_witness :
  let h := run init [Message 1 (subscribe printer 1000);
                     Message 2 (subscribe printer 1000); Tick 0] in
  is_open first_closed 2 = true /\ 2%nat ∈ entry_clients 0 h.
Proof.
  intros h.
  destruct (delivery_reaches_only_open_recipients h 0 ok_snapshot first_closed 2
              (MsgSnapshot printer ok_snapshot))
    as (Hopen & _ & p & Hp & Hcl & _).
  - vm_compute. apply list_elem_of_singleton. reflexivity.
  - split; [exact Hopen|].
    change (pending h !! 0%nat) with (Some (PollTick printer 0)) in Hp.
    injection Hp as <-. exact Hcl.
Defined.

Lemma dashboard_interval_reaches_server_witness :
  query_interval (buildWsUrl only_safe_integers printer (getSelectedInterval "5000")).2
    = 5000 /\
  (Hub.step init (startWebSocket only_safe_integers 1 printer "5000")).1
    = add_pending (OneOff printer 1) (Hub.step init (startAutoRefresh 1 printer "5000")).1.
Proof.
  refine (dashboard_interval_reaches_server only_safe_integers init 1 printer "5000" _ _).
  - discriminate.
  - vm_compute. discriminate.
Defined.

(** The integers of the model against the doubles of the runtime:
    [nearest_double] is the integer of the double that [Z2F] rounds
    to, at safe integers, at ties, beyond 1e21 and at the overflow to
    [Infinity]. *)
Example nearest_double_on_samples :
  Forall (fun n => integer_of_double (Z2F n) = Some (nearest_double n))
    [0; 5000; 2 ^ 53 - 1; 2 ^ 53 + 1; 2 ^ 53 + 3; 2 ^ 54 + 2; 2 ^ 54 + 6; 3000000000;
     10 ^ 21; 10 ^ 23; - 10 ^ 23; 2 ^ 100 + 2 ^ 47; 2 ^ 100 + 3 * 2 ^ 47;
     2 ^ 1024 - 2 ^ 970 - 1; 2 ^ 1024 - 2 ^ 970; 10 ^ 400] /\
  nearest_double (2 ^ 53 + 1) = 2 ^ 53 /\
  nearest_double (10 ^ 23) = 99999999999999991611392 /\
  nearest_double (10 ^ 400) = Infinity.
Proof. split; [|by vm_compute]. repeat constructor; vm_compute; reflexivity. Qed.

(** The interval of a connection query: a number beyond 2^53 is read
    as the nearest double, leading white space (here with a no-break
    space) is skipped, text that is no number gives 2000, a small number
    500; and the reply of a command is trimmed of the no-break space as
    well. *)
Example query_interval_on_samples :
  query_interval (Some "9007199254740993") = 9007199254740992 /\
  query_interval (Some (String "160" " 1500")) = 1500 /\
  query_interval (Some "soon") = 2000 /\
  query_interval (Some "") = 2000 /\
  query_interval (Some "0") = 500 /\
  query_interval None = 2000 /\
  trim (String "160" (" ok" ++ String "013" (String "010" (String "160" "")))) = "ok"%string.
Proof. repeat split; vm_compute; reflexivity. Qed.

(** A timer started with a delay beyond [TIMEOUT_MAX] fires every
    millisecond. *)
Example t_period_on_samples :
  t_period (mkTimer printer 0 2000) = 2000 /\
  t_period (mkTimer printer 0 2147483647) = 2147483647 /\
  t_period (mkTimer printer 0 3000000000) = 1 /\
  t_period (mkTimer printer 0 Infinity) = 1.
Proof. repeat split; vm_compute; reflexivity. Qed.

End MoreExamples.
